(** * Retrieval and context assembly of the knowledge-base query engine

    A shallow embedding of [processors/text_processor.py] (the text
    segmenter [_split_text]) and of [query_engine.py] (the ranker
    [_get_relevant_chunks], the context assembler [_prepare_context] and
    the pipeline [query]), followed by the properties of these functions.

    Conventions of the embedding.
    - A Python [str] is a [string]; every character stands for one code
      point below 256.  [lower], [strip], [split] and the regular
      expression class [\s] are written out for that range.
    - A Python [int] is a [Z]; slice and [rfind] bounds are adjusted the way
      CPython adjusts them (negative bounds count from the end, bounds past
      the end are clipped).
    - A Python exception is the [Raise] case of [result]; it carries
      [str(e)], the only thing the handlers of [query] look at.
    - [json.loads] and the generation backend are libraries: they are
      parameters of the functions that call them. *)

From Stdlib Require Import ZArith Ascii String Lia.
From stdpp Require Import base gmap strings list sorting.

(** ** Python strings *)

Module Str.

(** [len(s)] *)
Definition len (s : string) : Z := Z.of_nat (String.length s).

(** [c.isspace()] for a code point below 256: the ASCII table of CPython
    (tab, line feed, vertical tab, form feed, carriage return, the four
    separators 0x1c-0x1f, space) and the two Latin-1 spaces NEL and NBSP. *)
Definition isspace (c : ascii) : bool :=
  match c with
  | "009" | "010" | "011" | "012" | "013"
  | "028" | "029" | "030" | "031" | " " | "133" | "160" => true
  | _ => false
  end%char.

(** [c.lower()] for a code point below 256: A-Z and the Latin-1 capitals
    0xC0-0xDE (the multiplication sign 0xD7 apart) move up by 32. *)
Definition lower_char (c : ascii) : ascii :=
  let n := N_of_ascii c in
  if ((65 <=? n) && (n <=? 90) || (192 <=? n) && (n <=? 222) && negb (n =? 215))%N
  then ascii_of_N (n + 32) else c.

(** [s.lower()] *)
Fixpoint lower (s : string) : string :=
  match s with
  | "" => ""
  | String c s' => String (lower_char c) (lower s')
  end.

(** [s.lstrip()], [s.rstrip()], [s.strip()] *)
Fixpoint lstrip (s : string) : string :=
  match s with
  | "" => ""
  | String c s' => if isspace c then lstrip s' else s
  end.

Fixpoint rstrip (s : string) : string :=
  match s with
  | "" => ""
  | String c s' =>
      match rstrip s' with
      | "" => if isspace c then "" else String c ""
      | r => String c r
      end
  end.

Definition strip (s : string) : string := rstrip (lstrip s).

(** [s.split()]: the maximal runs of non-space characters.  [cur] is the
    word being read, if one has started. *)
Fixpoint split_go (cur : option string) (s : string) : list string :=
  match s with
  | "" => option_list cur
  | String c s' =>
      if isspace c then option_list cur ++ split_go None s'
      else split_go (Some (default "" cur +:+ String c "")) s'
  end.

Definition split (s : string) : list string := split_go None s.

(** [sub in s] *)
Fixpoint contains (sub s : string) : bool :=
  String.prefix sub s ||
  match s with
  | "" => false
  | String _ s' => contains sub s'
  end.

(** [sep.join(parts)] *)
Fixpoint join (sep : string) (parts : list string) : string :=
  match parts with
  | [] => ""
  | [p] => p
  | p :: rest => p +:+ sep +:+ join sep rest
  end.

(** [re.sub(r'\s+', ' ', s)]: every maximal run of spaces becomes one
    blank.  [in_run] tells that the previous character was a space. *)
Fixpoint sub_spaces (in_run : bool) (s : string) : string :=
  match s with
  | "" => ""
  | String c s' =>
      if isspace c
      then (if in_run then sub_spaces true s' else String " " (sub_spaces true s'))
      else String c (sub_spaces false s')
  end.

(** Bound adjustment of slices and of [find]/[rfind] on a sequence of
    length [n]: a negative bound counts from the end and stops at 0, a
    bound past the end is clipped to [n]. *)
Definition adjust (n i : Z) : Z :=
  if (i <? 0)%Z then Z.max 0 (i + n) else Z.min i n.

(** [s[i:j]] *)
Definition slice (s : string) (i j : Z) : string :=
  let lo := adjust (len s) i in
  let hi := adjust (len s) j in
  String.substring (Z.to_nat lo) (Z.to_nat (hi - lo)) s.

(** The highest index in [[lo, lo + n)] that holds [c], or -1. *)
Fixpoint rfind_from (c : ascii) (s : string) (lo n : nat) : Z :=
  match n with
  | O => (-1)%Z
  | S n' =>
      match String.get (lo + n') s with
      | Some a => if decide (a = c) then Z.of_nat (lo + n') else rfind_from c s lo n'
      | None => rfind_from c s lo n'
      end
  end.

(** [s.rfind(c, i, j)] for a one-character [c] *)
Definition rfind (s : string) (c : ascii) (i j : Z) : Z :=
  let lo := adjust (len s) i in
  let hi := adjust (len s) j in
  rfind_from c s (Z.to_nat lo) (Z.to_nat (hi - lo)).

End Str.

(** ** The text segmenter ([processors/text_processor.py]) *)

Module TextProcessor.
Import Str.
Local Open Scope Z_scope.

(** The [metadata] dictionary of an emitted chunk; [{}] is [None]. *)
Record span := { chunk_index : Z; start_pos : Z; end_pos : Z }.

(** A chunk as the extractors return it:
    [{"content": ..., "metadata": ...}]. *)
Record piece := { content : string; metadata : option span }.

(** The variables of the [while] loop of [_split_text]. *)
Record loop_state := { start : Z; next_index : Z; chunks : list piece }.

(** [max(text.rfind('.', start, end), text.rfind('!', start, end),
         text.rfind('?', start, end), text.rfind('\n', start, end))] *)
Definition sentence_end (text : string) (start end_ : Z) : Z :=
  Z.max (Z.max (Z.max (rfind text "." start end_) (rfind text "!" start end_))
               (rfind text "?" start end_))
        (rfind text "010" start end_).

(** The value of [end] when the chunk is cut: [start + chunk_size], moved
    to one past the last sentence ending only when the window stops before
    the end of the text ([if end < len(text)]). *)
Definition chunk_end (text : string) (chunk_size start : Z) : Z :=
  let end_ := start + chunk_size in
  if end_ <? len text then
    let se := sentence_end text start end_ in
    if se >? start then se + 1 else end_
  else end_.

(** One pass through the body of the loop. *)
Definition loop_body (text : string) (chunk_size overlap : Z)
    (st : loop_state) : loop_state :=
  let end_ := chunk_end text chunk_size (start st) in
  let chunk_text := strip (slice text (start st) end_) in
  let emitted := negb (String.eqb chunk_text "") in
  {| start := Z.max (start st + 1) (end_ - overlap);
     next_index := if emitted then next_index st + 1 else next_index st;
     chunks :=
       if emitted
       then chunks st ++
            [ {| content := chunk_text;
                 metadata := Some {| chunk_index := next_index st;
                                     start_pos := start st;
                                     end_pos := end_ |} |} ]
       else chunks st |}.

(** [while start < len(text): ...], run for at most [fuel] passes; [None]
    when the passes are used up before the condition fails. *)
Fixpoint loop (fuel : nat) (text : string) (chunk_size overlap : Z)
    (st : loop_state) : option loop_state :=
  if start st <? len text then
    match fuel with
    | O => None
    | S fuel' => loop fuel' text chunk_size overlap (loop_body text chunk_size overlap st)
    end
  else Some st.

(** [re.sub(r'\s+', ' ', text).strip()] *)
Definition clean (text : string) : string := strip (sub_spaces false text).

Definition initial : loop_state := {| start := 0; next_index := 0; chunks := [] |}.

(** [_split_text(text, chunk_size, overlap)] with a bound on the passes of
    its loop. *)
Definition split_text_within (fuel : nat) (text : string)
    (chunk_size overlap : Z) : option (list piece) :=
  if String.eqb text "" || String.eqb (strip text) "" then
    Some [ {| content := ""; metadata := None |} ]
  else
    let text := clean text in
    st ← loop fuel text chunk_size overlap initial;
    Some (match chunks st with
          | [] => [ {| content := text; metadata := None |} ]
          | _ => chunks st
          end).

(** [_split_text]: the loop moves [start] by at least one character in
    every pass, so as many passes as the cleaned text has characters are
    enough. *)
Definition _split_text (text : string) (chunk_size overlap : Z) : option (list piece) :=
  split_text_within (String.length (clean text)) text chunk_size overlap.

(** What the loop keeps true of the chunks it has emitted: the chunk does
    not start before the text and its [end_pos] is the [end] computed from
    its [start_pos]. *)
Definition cut_at_chunk_end (text : string) (chunk_size : Z) (p : piece) : Prop :=
  ∀ sp, metadata p = Some sp →
    0 ≤ start_pos sp ∧ end_pos sp = chunk_end text chunk_size (start_pos sp).

(** The boundary rule in the words of the specification.  [i] holds a
    sentence ending of [text]: one of the characters [.], [!], [?] and the
    line feed. *)
Definition is_sentence_end (text : string) (i : Z) : Prop :=
  0 ≤ i ∧
  ∃ c, String.get (Z.to_nat i) text = Some c ∧
       (c = "."%char ∨ c = "!"%char ∨ c = "?"%char ∨ c = "010"%char).

(** A chunk that starts at [start] ends at [end_] by the rule: one past
    the rightmost sentence ending of the window [[start, start + chunk_size)]
    that lies strictly after [start], and at [start + chunk_size] when the
    window has none. *)
Definition ends_by_rule (text : string) (chunk_size start end_ : Z) : Prop :=
  (∃ i, start < i < start + chunk_size ∧ is_sentence_end text i ∧
        (∀ j, i < j < start + chunk_size → ¬ is_sentence_end text j) ∧
        end_ = i + 1)
  ∨ ((∀ j, start < j < start + chunk_size → ¬ is_sentence_end text j) ∧
     end_ = start + chunk_size).

End TextProcessor.

(** ** Python values and exceptions *)

(** The value under a key of a decoded JSON object.  The code reads such a
    value in three ways only: [.lower()], which a [str] alone has; its
    truth value; and its text in an f-string.  A value that is not a [str]
    is therefore kept as the name of its type, its [str()] and its truth
    value. *)
Inductive pyval :=
  | VStr (s : string)
  | VOther (type_name repr : string) (truthy : bool).

(** What [chunk['content']] may be, before and after [json.loads]: a
    [str], a [dict], or any other object (a number, a list, a boolean,
    [None]), of which the code takes [str()] only. *)
Inductive pyobj :=
  | PStr (s : string)
  | PDict (d : gmap string pyval)
  | POther (repr : string).

(** A returned value, or a raised exception with its [str(e)]. *)
Inductive result (A : Type) :=
  | Ok (a : A)
  | Raise (msg : string).
Arguments Ok {A} a.
Arguments Raise {A} msg.

Definition bind {A B : Type} (m : result A) (k : A → result B) : result B :=
  match m with
  | Ok a => k a
  | Raise msg => Raise msg
  end.

(** The computation returns a value: it raises nothing. *)
Definition returns {A : Type} (m : result A) : Prop :=
  match m with
  | Ok _ => True
  | Raise _ => False
  end.

Global Instance returns_dec {A : Type} (m : result A) : Decision (returns m).
Proof. destruct m; cbn; apply _. Defined.

Notation "'let*' x := m 'in' k" := (bind m (λ x, k))
  (at level 10, x name, m at level 100, k at level 200).

Global Instance pyval_eq_dec : EqDecision pyval.
Proof. solve_decision. Defined.

Global Instance pyobj_eq_dec : EqDecision pyobj.
Proof. solve_decision. Defined.

Global Instance result_eq_dec {A : Type} `{EqDecision A} : EqDecision (result A).
Proof. solve_decision. Defined.

(** [bool(v)] and [f"{v}"] of a [pyval] *)
Definition truth (v : pyval) : bool :=
  match v with
  | VStr s => negb (String.eqb s "")
  | VOther _ _ t => t
  end.

Definition format (v : pyval) : string :=
  match v with
  | VStr s => s
  | VOther _ repr _ => repr
  end.

(** The double quote and the line feed, for the text of messages and of
    sample JSON documents. *)
Definition dq : string := String "034" "".
Definition nl : string := String "010" "".

(** ** A decoder for sample documents

    [json.loads] stays a parameter of the engine.  To run the engine on
    sample stores, [Json.loads] decodes the documents that the ingestion
    side writes with [json.dumps] for an image record: an object whose
    members are strings without escapes, [true], [false], [null] or
    integers, and the same scalars at top level.  Every other text is
    reported as not decodable; that is right for plain prose and is a
    restriction for the rest of JSON (floats, escapes, arrays, nesting). *)
Module Json.

Definition is_ws (c : ascii) : bool :=
  match c with
  | " " | "009" | "010" | "013" => true
  | _ => false
  end%char.

Fixpoint skip_ws (s : string) : string :=
  match s with
  | String c s' => if is_ws c then skip_ws s' else s
  | "" => ""
  end.

Definition is_digit (c : ascii) : bool :=
  (48 <=? N_of_ascii c)%N && (N_of_ascii c <=? 57)%N.

(** The body of a string up to its closing quote, and what follows. *)
Fixpoint read_string (s : string) : option (string * string) :=
  match s with
  | "" => None
  | String c s' =>
      if Ascii.eqb c "034" then Some ("", s')
      else if Ascii.eqb c "\" || (N_of_ascii c <? 32)%N then None
      else '(w, rest) ← read_string s'; Some (String c w, rest)
  end.

Fixpoint read_digits (s : string) : string * string :=
  match s with
  | String c s' =>
      if is_digit c then let '(ds, rest) := read_digits s' in (String c ds, rest)
      else ("", s)
  | "" => ("", "")
  end.

Fixpoint all_zero (ds : string) : bool :=
  match ds with
  | "" => true
  | String c ds' => Ascii.eqb c "0" && all_zero ds'
  end.

(** An integer literal; a fraction or an exponent after it makes a float,
    which is left out. *)
Definition read_int (negative : bool) (s : string) : option (pyval * string) :=
  let '(ds, rest) := read_digits s in
  match ds, rest with
  | "", _ => None
  | String "0" (String _ _), _ => None
  | _, String c _ =>
      if Ascii.eqb c "." || Ascii.eqb c "e" || Ascii.eqb c "E" then None
      else Some (VOther "int" (if negative && negb (all_zero ds) then "-" +:+ ds else ds)
                        (negb (all_zero ds)), rest)
  | _, "" =>
      Some (VOther "int" (if negative && negb (all_zero ds) then "-" +:+ ds else ds)
                   (negb (all_zero ds)), rest)
  end.

Definition read_word (w : string) (v : pyval) (s : string) : option (pyval * string) :=
  if String.prefix w s
  then Some (v, String.substring (String.length w) (String.length s - String.length w) s)
  else None.

Definition read_scalar (s : string) : option (pyval * string) :=
  match s with
  | String c s' =>
      if Ascii.eqb c "034" then '(w, rest) ← read_string s'; Some (VStr w, rest)
      else if Ascii.eqb c "t" then read_word "true" (VOther "bool" "True" true) s
      else if Ascii.eqb c "f" then read_word "false" (VOther "bool" "False" false) s
      else if Ascii.eqb c "n" then read_word "null" (VOther "NoneType" "None" false) s
      else if Ascii.eqb c "-" then read_int true s'
      else read_int false s
  | "" => None
  end.

(** The members of an object after its opening brace, up to the closing
    one; a repeated key keeps its last value. *)
Fixpoint read_members (fuel : nat) (s : string) (acc : gmap string pyval)
    : option (gmap string pyval * string) :=
  match fuel with
  | O => None
  | S fuel' =>
      match skip_ws s with
      | String "034" s1 =>
          '(k, s2) ← read_string s1;
          match skip_ws s2 with
          | String ":" s3 =>
              '(v, s4) ← read_scalar (skip_ws s3);
              match skip_ws s4 with
              | String "," s5 => read_members fuel' s5 (<[k:=v]> acc)
              | String "}" s5 => Some (<[k:=v]> acc, s5)
              | _ => None
              end
          | _ => None
          end
      | _ => None
      end
  end.

Definition decode (s : string) : option pyobj :=
  match skip_ws s with
  | String "{" s1 =>
      match skip_ws s1 with
      | String "}" s2 => if String.eqb (skip_ws s2) "" then Some (PDict ∅) else None
      | _ =>
          '(d, s2) ← read_members (String.length s) s1 ∅;
          if String.eqb (skip_ws s2) "" then Some (PDict d) else None
      end
  | s0 =>
      '(v, rest) ← read_scalar s0;
      if String.eqb (skip_ws rest) "" then
        Some (match v with
              | VStr w => PStr w
              | VOther _ repr _ => POther repr
              end)
      else None
  end.

(** [json.loads] on the sample documents: the decoded value, or [None]
    for [JSONDecodeError].  The sample documents are short and flat, so
    this decoder raises nothing else. *)
Definition loads (s : string) : result (option pyobj) := Ok (decode s).

End Json.

(** ** The query engine ([query_engine.py]) *)

Module QueryEngine.
Import Str.

(** A row of [KnowledgeBase.get_all_chunks()], as far as the engine reads
    it.  A key that the dictionary lacks is [None]: the engine reads both
    keys with [chunk.get(key, default)]. *)
Record chunk := {
  chunk_id : Z;
  filename : option string;
  content : option pyobj
}.

Global Instance chunk_eq_dec : EqDecision chunk.
Proof. solve_decision. Defined.

(** What [self.model.generate_content(prompt)] returns, as far as [query]
    looks at it: an object with a [text] attribute; or one without it but
    with [candidates], each candidate with the texts of its
    [content.parts]; or neither.  [repr] is [str(response)]. *)
Inductive response :=
  | WithText (text : string)
  | WithCandidates (candidates : list (list string)) (repr : string)
  | Opaque (repr : string).

(** The call to the backend returns a response or raises; [Failed] holds
    [str(api_error)]. *)
Inductive backend_result :=
  | Generated (r : response)
  | Failed (error_msg : string).

(** What a call of [query] leaves behind: the returned string and the
    prompts it sent to the backend, in order. *)
Record outcome := { answer : string; prompts : list string }.

(** [str(content)] in the branch of a content that is not a [dict]; the
    last case is never reached, both callers test for a [dict] first. *)
Definition str_of (o : pyobj) : string :=
  match o with
  | PStr s => s
  | POther repr => repr
  | PDict _ => ""
  end.

(** [scored_chunks.sort(key=lambda x: x[0], reverse=True)]: [list.sort] is
    stable, also with [reverse=True].  It is embedded as the insertion sort
    that puts an element before the first one whose score is not greater. *)
Fixpoint insert_desc {A : Type} (x : nat * A) (l : list (nat * A)) : list (nat * A) :=
  match l with
  | [] => [x]
  | y :: l' => if (x.1 <? y.1)%nat then y :: insert_desc x l' else x :: l
  end.

Fixpoint sort_desc {A : Type} (l : list (nat * A)) : list (nat * A) :=
  match l with
  | [] => []
  | x :: l' => insert_desc x (sort_desc l')
  end.

(** [l[:limit]] *)
Definition slice_to {A : Type} (l : list A) (limit : Z) : list A :=
  take (Z.to_nat (adjust (Z.of_nat (length l)) limit)) l.

Definition image_placeholder : string :=
  "[Image content - visual information available]".

Definition no_information : string :=
  "I couldn't find any relevant information in the processed files. Please make sure you have uploaded and processed some files first.".

(** The three messages of the handler of backend failures. *)
Definition model_error (error_msg : string) : string :=
  "Model error: The Gemini model is not available. Please check your API key and model configuration. Error: "
  +:+ error_msg.

Definition api_key_error (error_msg : string) : string :=
  "API key error: Please check your GEMINI_API_KEY in the .env file. Error: " +:+ error_msg.

Definition api_error (error_msg : string) : string := "API error: " +:+ error_msg.

(** [except Exception as api_error: ...] around the call to the backend *)
Definition on_api_error (error_msg : string) : string :=
  if contains "404" error_msg || contains "not found" (lower error_msg) then
    model_error error_msg
  else if contains "403" error_msg || contains "permission" (lower error_msg) then
    api_key_error error_msg
  else api_error error_msg.

(** The outer [except Exception as e: ...] of [query] *)
Definition on_error (error_msg : string) : string :=
  if contains "GEMINI_API_KEY" error_msg then
    "Configuration error: " +:+ error_msg +:+ ". Please set your GEMINI_API_KEY in the .env file."
  else
    "Error processing query: " +:+ error_msg +:+ ". Please check your configuration and try again.".

(** The f-string that [query] sends to the backend. *)
Definition prompt_of (context user_query : string) : string :=
  "You are a helpful assistant that answers questions based on the provided context from various documents."
  +:+ nl +:+ nl +:+ "Context from documents:" +:+ nl +:+ context +:+ nl +:+ nl
  +:+ "User Question: " +:+ user_query +:+ nl +:+ nl
  +:+ "Please provide a clear, accurate answer based on the context above. If the information is not available in the context, say so. If you need to reference specific documents, mention the document names."
  +:+ nl +:+ nl +:+ "Answer:".

(** The text of a response, or the exception of the indexing
    [response.candidates[0].content.parts[0].text]. *)
Definition response_text (r : response) : result string :=
  match r with
  | WithText text => Ok text
  | WithCandidates (parts :: _) _ =>
      match parts with
      | text :: _ => Ok text
      | [] => Raise "list index out of range"
      end
  | WithCandidates [] repr => Ok repr
  | Opaque repr => Ok repr
  end.

(** A block of the context in the words of the specification: the label
    of the document, then its text. *)
Definition block (label text : string) : string :=
  "Document: " +:+ label +:+ nl +:+ "Content:" +:+ nl +:+ text +:+ nl.

Section Engine.

(** [json.loads]: the decoded value; [None] for [JSONDecodeError], which
    the two callers catch; or any other exception, which they do not
    catch: CPython raises [ValueError] for an integer of more than 4300
    digits and [RecursionError] for deep nesting. *)
Variable json_loads : string → result (option pyobj).

(** [self.model.generate_content] *)
Variable generate_content : string → backend_result.

(** [self.db.get_all_chunks()] *)
Variable all_chunks : list chunk.

(** The decoding step both functions start with:
    [if isinstance(content, str): try: content = json.loads(content)
     except (json.JSONDecodeError, TypeError): pass]. *)
Definition decoded (content : pyobj) : result pyobj :=
  match content with
  | PStr s =>
      let* value := json_loads s in
      Ok (default content value)
  | _ => Ok content
  end.

(** [content_text] of [_get_relevant_chunks]: the lower-cased text that a
    chunk is scored on.  [.lower()] of an [ocr_text] that is not a [str]
    raises [AttributeError]. *)
Definition scoring_text (c : chunk) : result string :=
  let* content := decoded (default (PStr "") (content c)) in
  match content with
  | PDict d =>
      match default (VStr "") (d !! "ocr_text") with
      | VStr s => Ok (lower s)
      | VOther type_name _ _ =>
          Raise ("'" +:+ type_name +:+ "' object has no attribute 'lower'")
      end
  | other => Ok (lower (str_of other))
  end.

(** [set(query.lower().split())] *)
Definition query_words (query : string) : gset string :=
  list_to_set (split (lower query)).

(** [sum(1 for word in query_words if word in content_text)] *)
Definition score_of (words : gset string) (content_text : string) : nat :=
  sum_list_with (λ word, if contains word content_text then 1 else 0)%nat (elements words).

(** [score] of one pass of the [for chunk in all_chunks] loop. *)
Definition chunk_score (words : gset string) (c : chunk) : result nat :=
  let* content_text := scoring_text c in
  Ok (score_of words content_text).

(** The [for chunk in all_chunks] loop, which appends [(score, chunk)] to
    [scored_chunks] when the score is positive. *)
Fixpoint score_chunks (words : gset string) (chunks : list chunk)
    (scored_chunks : list (nat * chunk)) : result (list (nat * chunk)) :=
  match chunks with
  | [] => Ok scored_chunks
  | chunk :: rest =>
      let* score := chunk_score words chunk in
      score_chunks words rest
        (if (0 <? score)%nat then scored_chunks ++ [(score, chunk)] else scored_chunks)
  end.

Definition _get_relevant_chunks (query : string) (limit : Z) : result (list chunk) :=
  let words := query_words query in
  let* scored_chunks := score_chunks words all_chunks [] in
  Ok ((slice_to (sort_desc scored_chunks) limit).*2).

(** The relevance score in the words of the specification: the number of
    distinct words of the lower-cased query that occur somewhere in the
    text. *)
Definition distinct_hits (query content_text : string) : nat :=
  length (filter (λ word, contains word content_text)
                 (remove_dups (split (lower query)))).

(** What a consumer makes of a content before it takes a text from it, in
    the words of the data model: a string is decoded first and is taken as
    plain text when it is not JSON; a record or any other object is taken
    as it is. *)
Definition reads_as (content value : pyobj) : Prop :=
  match content with
  | PStr s => json_loads s = Ok (Some value) ∨ (json_loads s = Ok None ∧ value = PStr s)
  | _ => value = content
  end.

(** The chunks with a positive score, each with its score, in the order of
    the store: [scored_chunks] as the loop leaves it. *)
Definition positively_scored (words : gset string) (chunks : list chunk)
    : list (nat * chunk) :=
  omap (λ c, match chunk_score words c with
             | Ok score => if (0 <? score)%nat then Some (score, c) else None
             | Raise _ => None
             end) chunks.

(** [content_text] of [_prepare_context]: the text a chunk is shown with. *)
Definition context_text (c : chunk) : result string :=
  let* content := decoded (default (PStr "") (content c)) in
  Ok (match content with
      | PDict d =>
          let v := default (VStr "") (d !! "ocr_text") in
          if truth v then format v else image_placeholder
      | other => str_of other
      end).

(** [f"Document: {filename}\nContent:\n{content_text}\n"] *)
Definition context_part (c : chunk) : result string :=
  let* content_text := context_text c in
  Ok ("Document: " +:+ default "Unknown" (filename c) +:+ nl +:+ "Content:" +:+ nl
      +:+ content_text +:+ nl).

Definition separator : string := nl +:+ "---" +:+ nl.

(** The [for i, chunk in enumerate(chunks)] loop, which appends a part for
    every chunk and stops at the first chunk that raises. *)
Fixpoint context_parts (chunks : list chunk) : result (list string) :=
  match chunks with
  | [] => Ok []
  | chunk :: rest =>
      let* part := context_part chunk in
      let* parts := context_parts rest in
      Ok (part :: parts)
  end.

Definition _prepare_context (chunks : list chunk) : result string :=
  let* parts := context_parts chunks in
  Ok (join separator parts).

(** The text that the context shows for a content read as [value], in the
    words of the specification as amended: of a record its OCR text, and
    the placeholder when that is missing or counts as false; of any other
    value its text as it is, also when it is empty. *)
Definition shown_text (value : pyobj) : string :=
  match value with
  | PDict d =>
      match d !! "ocr_text" with
      | Some v => if truth v then format v else image_placeholder
      | None => image_placeholder
      end
  | PStr s => s
  | POther repr => repr
  end.


Definition query (user_query : string) : outcome :=
  match _get_relevant_chunks user_query 10 with
  | Raise msg => {| answer := on_error msg; prompts := [] |}
  | Ok [] => {| answer := no_information; prompts := [] |}
  | Ok relevant_chunks =>
      match _prepare_context relevant_chunks with
      | Raise msg => {| answer := on_error msg; prompts := [] |}
      | Ok context =>
          let prompt := prompt_of context user_query in
          {| answer :=
               match generate_content prompt with
               | Generated r =>
                   match response_text r with
                   | Ok text => text
                   | Raise msg => on_api_error msg
                   end
               | Failed msg => on_api_error msg
               end;
             prompts := [prompt] |}
      end
  end.

End Engine.

End QueryEngine.

(** ** Sample stores

    Rows as [get_all_chunks] returns them after ingestion: the content of a
    text chunk is its text, the content of an image chunk is the
    [json.dumps] of its record. *)
Module Samples.
Import QueryEngine.

Definition quoted (s : string) : string := dq +:+ s +:+ dq.

(** [json.dumps({"ocr_text": ocr_text, "image_base64": "QUJD",
                 "has_text": bool(ocr_text)})] *)
Definition image_record (ocr_text : string) : string :=
  "{" +:+ quoted "ocr_text" +:+ ": " +:+ quoted ocr_text +:+ ", "
  +:+ quoted "image_base64" +:+ ": " +:+ quoted "QUJD" +:+ ", "
  +:+ quoted "has_text" +:+ ": "
  +:+ (if String.eqb ocr_text "" then "false" else "true") +:+ "}".

(** A record that lacks the [ocr_text] key. *)
Definition bare_record : string :=
  "{" +:+ quoted "image_base64" +:+ ": " +:+ quoted "QUJD" +:+ ", "
  +:+ quoted "has_text" +:+ ": false}".

Definition row (id : Z) (name content : string) : chunk :=
  {| chunk_id := id; filename := Some name; content := Some (PStr content) |}.

Definition geo : chunk := row 1 "geo.txt" "The capital of France is Paris.".
Definition notes : chunk := row 2 "notes.md" "Paris is in France.".
Definition tour : chunk := row 3 "tour.txt" "A capital city tour of Paris, France.".
Definition photo : chunk := row 4 "photo.png" (image_record "Paris by night").
Definition blank_photo : chunk := row 5 "blank.png" (image_record "").
Definition bare_photo : chunk := row 6 "bare.png" bare_record.
Definition empty_file : chunk := row 7 "empty.txt" "".

Definition store : list chunk :=
  [notes; geo; photo; blank_photo; tour; bare_photo; empty_file].

Definition question : string := "What is the capital of France?".

(** A text chunk that happens to be a JSON object whose [ocr_text] is a
    number. *)
Definition odd_file : chunk := row 8 "odd.txt" ("{" +:+ quoted "ocr_text" +:+ ": 1}").

(** Backends that fail with a given error. *)
Definition failing (error_msg : string) : string → backend_result :=
  λ _, Failed error_msg.

Definition forbidden : string := "403 Forbidden".
Definition forbidden_not_found : string := "403 Forbidden: model not found".

(** What [bare_record] decodes to. *)
Definition bare_dict : gmap string pyval :=
  {[ "image_base64" := VStr "QUJD"; "has_text" := VOther "bool" "False" false ]}.

(** A text file that holds one JSON string, quotes included. *)
Definition quoted_file : chunk := row 9 "quoted.txt" (quoted "harbour").

(** A text file of a thousand opening brackets, and a decoder that gives
    up on it the way CPython does with its default recursion limit; on
    every other text it is the sample decoder. *)
Definition brackets (n : nat) : string := foldr String.append "" (replicate n "[").

Definition deep_file : chunk := row 10 "deep.txt" (brackets 1000).

Definition recursion_error : string :=
  "maximum recursion depth exceeded while decoding a JSON array from a unicode string".

Definition limited_loads (s : string) : result (option pyobj) :=
  if String.eqb s (brackets 1000) then Raise recursion_error else Json.loads s.

End Samples.

(** ** Invariants of the loop of the segmenter *)

Module SegmenterInvariants.
Import Str TextProcessor.
Local Open Scope Z_scope.

(** An emitted chunk holds the stripped slice between its positions, which
    is not empty, and it starts inside the text. *)
Definition holds_its_slice (text : string) (p : piece) : Prop :=
  ∀ sp, metadata p = Some sp →
    content p = strip (slice text (start_pos sp) (end_pos sp))
    ∧ content p ≠ ""
    ∧ 0 ≤ start_pos sp < len text.

(** The chunks are numbered from 0 in the order of the list, and their
    start positions grow strictly. *)
Definition numbered (pieces : list piece) : Prop :=
  (∀ k p sp, pieces !! k = Some p → metadata p = Some sp →
     chunk_index sp = Z.of_nat k)
  ∧ (∀ i j pi pj si sj, (i < j)%nat →
       pieces !! i = Some pi → pieces !! j = Some pj →
       metadata pi = Some si → metadata pj = Some sj →
       start_pos si < start_pos sj).

(** The state of the loop between two passes: as many chunks as the next
    index says, every one with positions, numbered, and started before the
    current [start]. *)
Definition loop_invariant (st : loop_state) : Prop :=
  Z.of_nat (length (chunks st)) = next_index st
  ∧ numbered (chunks st)
  ∧ Forall (λ p, ∃ sp, metadata p = Some sp ∧ start_pos sp < start st) (chunks st).

(** Every character of [s] satisfies [P]. *)
Definition only (P : ascii → Prop) (s : string) : Prop :=
  ∀ k c, String.get k s = Some c → P c.

(** A character that is white space is the blank. *)
Definition blank_if_space (c : ascii) : Prop := isspace c = true → c = " "%char.

(** No two blanks of [s] stand side by side. *)
Definition single_blanks (s : string) : Prop :=
  ∀ k, String.get k s = Some " "%char → String.get (S k) s ≠ Some " "%char.

End SegmenterInvariants.

(** ** Paths ([os.path] on POSIX) and the configuration *)

Module Path.
Import Str.
Local Open Scope Z_scope.

(** The loop of [genericpath._splitext] that skips the leading dots of the
    file name: it tells whether one of the [n] characters from
    [filenameIndex] on is not a dot. *)
Fixpoint name_starts_before (p : string) (filenameIndex : Z) (n : nat) : bool :=
  match n with
  | O => false
  | S n' =>
      if negb (String.eqb (slice p filenameIndex (filenameIndex + 1)) ".") then true
      else name_starts_before p (filenameIndex + 1) n'
  end.

(** [os.path.splitext(p)]: the extension starts at the last dot of the last
    component, unless that component has dots only before it. *)
Definition splitext (p : string) : string * string :=
  let sepIndex := rfind p "/" 0 (len p) in
  let dotIndex := rfind p "." 0 (len p) in
  if (dotIndex >? sepIndex)
     && name_starts_before p (sepIndex + 1) (Z.to_nat (dotIndex - (sepIndex + 1)))
  then (slice p 0 dotIndex, slice p dotIndex (len p))
  else (p, "").

(** [os.path.basename(p)] *)
Definition basename (p : string) : string :=
  slice p (rfind p "/" 0 (len p) + 1) (len p).

(** [s.endswith(suffix)] *)
Definition endswith (s suffix : string) : bool :=
  String.eqb (slice s (len s - len suffix) (len s)) suffix
  && (len suffix <=? len s).

(** [s.rsplit('.', 1)[0]]: what stands before the last dot, or all of [s]. *)
Definition before_last_dot (s : string) : string :=
  let dotIndex := rfind s "." 0 (len s) in
  if dotIndex <? 0 then s else slice s 0 dotIndex.

End Path.

(** [config.py] *)
Module Config.

Definition ALLOWED_EXTENSIONS_text : list string := [".pdf"; ".docx"; ".pptx"; ".md"; ".txt"].
Definition ALLOWED_EXTENSIONS_image : list string := [".png"; ".jpg"; ".jpeg"].
Definition ALLOWED_EXTENSIONS_audio : list string := [".mp3"].
Definition ALLOWED_EXTENSIONS_video : list string := [".mp4"].
Definition CHUNK_SIZE : Z := 1000.
Definition OVERLAP_SIZE : Z := 200.

End Config.

(** ** The extractors, as far as they are code of their own

    Reading a file, OCR, speech recognition and [ffmpeg] are libraries and
    programs: they are parameters.  What the extractors do around them is
    embedded. *)

Module Extractors.
Import Str Path TextProcessor.

(** [chunks = TextProcessor._split_text(text)] with the default sizes.
    [_split_text] always returns a list; the bound on its loop is never
    reached. *)
Definition split_default (text : string) : list piece :=
  default [] (_split_text text 1000 200).

Definition text_chunk (content : string) : piece :=
  {| content := content; metadata := None |}.

Section Text.

(** [open(file_path, 'r', ...).read()], which may raise. *)
Variable read_text : string → result string.

(** The text that the loops of [process_pdf], [process_docx] and
    [process_pptx] build from the file with their libraries, or the
    exception of the library. *)
Variables pdf_text docx_text pptx_text : string → result string.

Definition process_pdf (file_path : string) : list piece :=
  match pdf_text file_path with
  | Ok full_text => split_default full_text
  | Raise e => [text_chunk ("Error reading PDF: " +:+ e)]
  end.

Definition process_docx (file_path : string) : list piece :=
  match docx_text file_path with
  | Ok full_text => split_default full_text
  | Raise e => [text_chunk ("Error reading DOCX: " +:+ e)]
  end.

Definition process_pptx (file_path : string) : list piece :=
  match pptx_text file_path with
  | Ok full_text => split_default full_text
  | Raise e => [text_chunk ("Error reading PPTX: " +:+ e)]
  end.

Definition process_txt (file_path : string) : list piece :=
  match read_text file_path with
  | Ok content => split_default content
  | Raise e => [text_chunk ("Error reading TXT: " +:+ e)]
  end.

Definition process_md (file_path : string) : list piece :=
  match read_text file_path with
  | Ok content => split_default content
  | Raise e => [text_chunk ("Error reading MD: " +:+ e)]
  end.

(** [TextProcessor.process_file] *)
Definition text_process_file (file_path : string) : list piece :=
  let ext := lower (splitext file_path).2 in
  if String.eqb ext ".pdf" then process_pdf file_path
  else if String.eqb ext ".docx" then process_docx file_path
  else if String.eqb ext ".pptx" then process_pptx file_path
  else if String.eqb ext ".txt" then process_txt file_path
  else if String.eqb ext ".md" then process_md file_path
  else [text_chunk ("Unsupported file type: " +:+ ext)].

End Text.

(** A chunk of the image and of the audio and video extractors: the
    content, and the metadata as the list of its items; the metadata of
    these extractors hold strings, those of an opened image are left to
    the parameter. *)
Record media_chunk := { media_content : pyobj; media_metadata : list (string * string) }.

Section Image.

(** [ImageProcessor.process_image] *)
Variable process_image : string → list media_chunk.

(** [{"ocr_text": text, "image_base64": None, "has_text": False}] *)
Definition image_note (text : string) : gmap string pyval :=
  {[ "ocr_text" := VStr text;
     "image_base64" := VOther "NoneType" "None" false;
     "has_text" := VOther "bool" "False" false ]}.

(** [ImageProcessor.process_file] *)
Definition image_process_file (file_path : string) : list media_chunk :=
  let ext := lower (splitext file_path).2 in
  if bool_decide (ext ∈ [".png"; ".jpg"; ".jpeg"]) then process_image file_path
  else [ {| media_content := PDict (image_note ("Unsupported image type: " +:+ ext));
            media_metadata := [] |} ].

End Image.

(** How the run of [ffmpeg] ends: it returns, it raises
    [subprocess.CalledProcessError], or it raises something else. *)
Inductive run_result :=
  | Completed
  | CalledProcessError
  | OtherError (msg : string).

Section AudioVideo.

(** [AudioVideoProcessor._audio_to_text]: it catches every exception and
    returns a string. *)
Variable _audio_to_text : string → string.

(** [subprocess.run(['ffmpeg', '-i', file_path, ..., temp_audio_path],
    check=True, capture_output=True)] *)
Variable ffmpeg : string → string → run_result.

(** The name of the temporary file of [process_video]. *)
Variable temp_audio_path : string.

Definition media_text (content : string) (metadata : list (string * string)) : media_chunk :=
  {| media_content := PStr content; media_metadata := metadata |}.

Definition process_audio (file_path : string) : list media_chunk :=
  let text_content := _audio_to_text file_path in
  if negb (String.eqb text_content "") then
    [media_text text_content
       [("source", "audio"); ("file_path", file_path);
        ("file_type", (splitext file_path).2)]]
  else
    [media_text "No speech detected in audio file"
       [("source", "audio"); ("file_path", file_path)]].

Definition process_video (file_path : string) : list media_chunk :=
  match ffmpeg file_path temp_audio_path with
  | Completed =>
      let text_content := _audio_to_text temp_audio_path in
      if negb (String.eqb text_content "") then
        [media_text text_content
           [("source", "video"); ("file_path", file_path); ("file_type", "mp4")]]
      else
        [media_text "No speech detected in video file"
           [("source", "video"); ("file_path", file_path)]]
  | CalledProcessError =>
      [media_text "Video processing requires ffmpeg. Please install ffmpeg to process video files."
         [("source", "video"); ("file_path", file_path)]]
  | OtherError e =>
      [media_text ("Error processing video: " +:+ e)
         [("source", "video"); ("file_path", file_path)]]
  end.

(** [AudioVideoProcessor.process_file] *)
Definition av_process_file (file_path : string) : list media_chunk :=
  let ext := lower (splitext file_path).2 in
  if String.eqb ext ".mp3" then process_audio file_path
  else if String.eqb ext ".mp4" then process_video file_path
  else [media_text ("Unsupported audio/video type: " +:+ ext) []].

End AudioVideo.

(** [AudioVideoProcessor.is_youtube_url] *)
Definition is_youtube_url (url : string) : bool :=
  existsb (λ domain, contains domain (lower url))
          ["youtube.com"; "youtu.be"; "www.youtube.com"; "m.youtube.com"].

(** The path of the WAV file in [_audio_to_text]:
    [audio_path] when it ends with [.wav], and else
    [audio_path.rsplit('.', 1)[0] + '.wav']. *)
Definition wav_path (audio_path : string) : string :=
  if endswith audio_path ".wav" then audio_path
  else before_last_dot audio_path +:+ ".wav".

End Extractors.

(** [FileProcessor.get_file_type] ([processor.py]) *)
Module FileTypes.
Import Str Path Config.

Definition get_file_type (file_path : string) : string :=
  let ext := lower (splitext file_path).2 in
  if bool_decide (ext ∈ ALLOWED_EXTENSIONS_text) then "text"
  else if bool_decide (ext ∈ ALLOWED_EXTENSIONS_image) then "image"
  else if bool_decide (ext ∈ ALLOWED_EXTENSIONS_audio) then "audio"
  else if bool_decide (ext ∈ ALLOWED_EXTENSIONS_video) then "video"
  else "unknown".

End FileTypes.

(** ** The store ([database.py])

    The three tables are lists of rows in the order of insertion.  An
    [INTEGER PRIMARY KEY AUTOINCREMENT] column takes the successor of the
    highest key that the table ever held; that number survives
    [DELETE FROM], so it is part of the state.  The two time stamps
    ([DEFAULT CURRENT_TIMESTAMP]) are left out, and with them
    [get_all_files] and [get_all_queries], which order by them.  SQL leaves
    open how [ORDER BY] places rows with equal keys; the embedding keeps
    them in the order of insertion. *)

Module KnowledgeBase.

Record file_row := {
  f_id : Z;
  f_filename : string;
  f_file_type : string;
  f_file_path : option string;
  f_file_size : Z;
  f_processed : bool
}.

Record chunk_row := {
  c_id : Z;
  c_file_id : Z;
  c_chunk_index : Z;
  c_content : string;
  c_content_type : string;
  c_metadata : option string
}.

Record query_row := {
  q_id : Z;
  q_query_text : string;
  q_response_text : option string
}.

Record db := {
  files : list file_row;
  chunks : list chunk_row;
  queries : list query_row;
  files_seq : Z;
  chunks_seq : Z;
  queries_seq : Z
}.

(** [init_database] on a new file *)
Definition empty : db :=
  {| files := []; chunks := []; queries := [];
     files_seq := 0; chunks_seq := 0; queries_seq := 0 |}.

(** The order of two sort keys [(first, second)]. *)
Definition key_lt (a b : Z * Z) : bool :=
  (a.1 <? b.1)%Z || ((a.1 =? b.1)%Z && (a.2 <? b.2)%Z).

(** [a] is not after [b] in the order of the keys. *)
Definition key_le (a b : Z * Z) : Prop :=
  (a.1 < b.1)%Z ∨ (a.1 = b.1 ∧ a.2 ≤ b.2)%Z.

(** [ORDER BY], ascending: a row goes before the first row whose key is
    not smaller. *)
Fixpoint insert_by {A : Type} (key : A → Z * Z) (x : A) (l : list A) : list A :=
  match l with
  | [] => [x]
  | y :: l' => if key_lt (key y) (key x) then y :: insert_by key x l' else x :: l
  end.

Definition order_by {A : Type} (key : A → Z * Z) (l : list A) : list A :=
  foldr (insert_by key) [] l.

(** [add_file]: the new state and [cursor.lastrowid]. *)
Definition add_file (d : db) (filename file_type : string) (file_path : option string)
    (file_size : Z) : db * Z :=
  let file_id := (files_seq d + 1)%Z in
  ({| files := files d ++ [ {| f_id := file_id; f_filename := filename;
                               f_file_type := file_type; f_file_path := file_path;
                               f_file_size := file_size; f_processed := false |} ];
      chunks := chunks d; queries := queries d;
      files_seq := file_id; chunks_seq := chunks_seq d; queries_seq := queries_seq d |},
   file_id).

(** [UPDATE files SET processed = 1 WHERE id = ?] *)
Definition mark_file_processed (d : db) (file_id : Z) : db :=
  {| files := (λ f, if bool_decide (f_id f = file_id)
                    then {| f_id := f_id f; f_filename := f_filename f;
                            f_file_type := f_file_type f; f_file_path := f_file_path f;
                            f_file_size := f_file_size f; f_processed := true |}
                    else f) <$> files d;
     chunks := chunks d; queries := queries d;
     files_seq := files_seq d; chunks_seq := chunks_seq d; queries_seq := queries_seq d |}.

(** [save_query] *)
Definition save_query (d : db) (query_text : string) (response_text : option string) : db :=
  {| files := files d; chunks := chunks d;
     queries := queries d ++ [ {| q_id := (queries_seq d + 1)%Z; q_query_text := query_text;
                                  q_response_text := response_text |} ];
     files_seq := files_seq d; chunks_seq := chunks_seq d;
     queries_seq := (queries_seq d + 1)%Z |}.

(** [clear_all_data]: three [DELETE FROM]. *)
Definition clear_all_data (d : db) : db :=
  {| files := []; chunks := []; queries := [];
     files_seq := files_seq d; chunks_seq := chunks_seq d; queries_seq := queries_seq d |}.

(** [delete_query_history] *)
Definition delete_query_history (d : db) : db :=
  {| files := files d; chunks := chunks d; queries := [];
     files_seq := files_seq d; chunks_seq := chunks_seq d; queries_seq := queries_seq d |}.

Section Metadata.

(** The metadata dictionaries, with [bool(metadata)], [json.dumps],
    [json.loads] and [{}]. *)
Context {M : Type}.
Variable meta_truth : M → bool.
Variable meta_dumps : M → string.
Variable meta_loads : string → M.
Variable meta_empty : M.

(** A dictionary of the list that [get_all_chunks] returns. *)
Record chunk_dict := {
  d_id : Z;
  d_file_id : Z;
  d_chunk_index : Z;
  d_content : string;
  d_content_type : string;
  d_metadata : M;
  d_filename : string;
  d_file_type : string
}.

(** A dictionary of the list that [get_file_chunks] returns. *)
Record file_chunk_dict := {
  fc_id : Z;
  fc_chunk_index : Z;
  fc_content : string;
  fc_content_type : string;
  fc_metadata : M
}.

(** [add_chunk]; [metadata] is [None] when the argument is left out. *)
Definition add_chunk (d : db) (file_id chunk_index : Z) (content content_type : string)
    (metadata : option M) : db :=
  let metadata_json :=
    match metadata with
    | Some m => if meta_truth m then Some (meta_dumps m) else None
    | None => None
    end in
  {| files := files d;
     chunks := chunks d ++ [ {| c_id := (chunks_seq d + 1)%Z; c_file_id := file_id;
                                c_chunk_index := chunk_index; c_content := content;
                                c_content_type := content_type;
                                c_metadata := metadata_json |} ];
     queries := queries d;
     files_seq := files_seq d; chunks_seq := (chunks_seq d + 1)%Z;
     queries_seq := queries_seq d |}.

(** [json.loads(row[5]) if row[5] else {}] *)
Definition metadata_of (column : option string) : M :=
  match column with
  | Some text => if String.eqb text "" then meta_empty else meta_loads text
  | None => meta_empty
  end.

(** [json.loads] gives back the dictionary that [json.dumps] wrote, and
    the only dictionary that counts as false is the empty one. *)
Definition reads_back (metadata : M) : Prop :=
  if meta_truth metadata
  then meta_dumps metadata ≠ "" ∧ meta_loads (meta_dumps metadata) = metadata
  else metadata = meta_empty.

(** [FROM chunks c JOIN files f ON c.file_id = f.id] *)
Definition joined (d : db) : list (chunk_row * file_row) :=
  c ← chunks d; f ← filter (λ f, f_id f = c_file_id c) (files d); [(c, f)].

Definition chunk_dict_of (row : chunk_row * file_row) : chunk_dict :=
  {| d_id := c_id row.1; d_file_id := c_file_id row.1;
     d_chunk_index := c_chunk_index row.1; d_content := c_content row.1;
     d_content_type := c_content_type row.1;
     d_metadata := metadata_of (c_metadata row.1);
     d_filename := f_filename row.2; d_file_type := f_file_type row.2 |}.

(** [get_all_chunks(content_type)]; [None] is the default.  The filter is
    applied [if content_type:], that is for a type that is not empty. *)
Definition get_all_chunks (d : db) (content_type : option string) : list chunk_dict :=
  let rows :=
    match content_type with
    | Some t =>
        if negb (String.eqb t "")
        then filter (λ row, c_content_type row.1 = t) (joined d)
        else joined d
    | None => joined d
    end in
  chunk_dict_of <$> order_by (λ row, (f_id row.2, c_chunk_index row.1)) rows.

(** [get_file_chunks(file_id)] *)
Definition get_file_chunks (d : db) (file_id : Z) : list file_chunk_dict :=
  (λ c, {| fc_id := c_id c; fc_chunk_index := c_chunk_index c;
           fc_content := c_content c; fc_content_type := c_content_type c;
           fc_metadata := metadata_of (c_metadata c) |})
  <$> order_by (λ c, (0%Z, c_chunk_index c))
        (filter (λ c, c_file_id c = file_id) (chunks d)).

(** The order of [ORDER BY f.id, c.chunk_index] on the returned rows, and
    of [ORDER BY chunk_index]. *)
Definition by_file_and_index (a b : chunk_dict) : Prop :=
  key_le (d_file_id a, d_chunk_index a) (d_file_id b, d_chunk_index b).

Definition by_index (a b : file_chunk_dict) : Prop :=
  (fc_chunk_index a ≤ fc_chunk_index b)%Z.

(** The part of a row of [get_all_chunks] that [get_file_chunks] returns. *)
Definition file_chunk_of (row : chunk_dict) : file_chunk_dict :=
  {| fc_id := d_id row; fc_chunk_index := d_chunk_index row;
     fc_content := d_content row; fc_content_type := d_content_type row;
     fc_metadata := d_metadata row |}.

(** The row as the query engine reads it. *)
Definition as_chunk (row : chunk_dict) : QueryEngine.chunk :=
  {| QueryEngine.chunk_id := d_id row;
     QueryEngine.filename := Some (d_filename row);
     QueryEngine.content := Some (PStr (d_content row)) |}.

End Metadata.

(** The keys of a table are positive, distinct and not above the counter
    of the table, which is not negative. *)
Definition keys_fresh (keys : list Z) (seq : Z) : Prop :=
  NoDup keys ∧ Forall (λ k, (0 < k ≤ seq)%Z) keys ∧ (0 ≤ seq)%Z.

(** No chunk names a file key that the store has not given out yet. *)
Definition chunks_of_known_files (d : db) : Prop :=
  Forall (λ c, (c_file_id c ≤ files_seq d)%Z) (chunks d).

(** The states that the operations keep to. *)
Definition consistent (d : db) : Prop :=
  keys_fresh (f_id <$> files d) (files_seq d)
  ∧ keys_fresh (c_id <$> chunks d) (chunks_seq d)
  ∧ keys_fresh (q_id <$> queries d) (queries_seq d).

End KnowledgeBase.

(** ** The processing pipeline ([processor.py])

    The three processors are parameters; they catch their own exceptions
    and return lists of chunks. *)

Module FileProcessor.
Import Str Path FileTypes KnowledgeBase.

(** What [process_file] and [process_youtube] return; [chunks_count] is
    missing from the dictionary of a failure. *)
Record report := {
  success : bool;
  message : string;
  file_id : Z;
  chunks_count : option nat
}.

Section Processor.

Context {M : Type}.
Variable meta_truth : M → bool.
Variable meta_dumps : M → string.
Variable meta_empty : M.

(** A chunk of an extractor, as [process_file] reads it with
    [chunk.get('content', '')] and [chunk.get('metadata', {})]. *)
Record extracted := { e_content : option pyobj; e_metadata : option M }.

(** [json.dumps] of a content that is a [dict] *)
Variable json_dumps : gmap string pyval → string.

(** [os.path.getsize(file_path) if os.path.exists(file_path) else 0] *)
Variable file_size : string → Z.

(** The [process_file] of the three processors and
    [AudioVideoProcessor.process_youtube]. *)
Variables text_process_file image_process_file av_process_file : string → list extracted.
Variable av_process_youtube : string → list extracted.

(** [json.dumps(content) if isinstance(content, dict) else str(content)] *)
Definition content_str (content : pyobj) : string :=
  match content with
  | PDict d => json_dumps d
  | PStr s => s
  | POther repr => repr
  end.

(** [for idx, chunk in enumerate(chunks): ... self.db.add_chunk(...)],
    from index [idx] on; [to_str] is how the content becomes the stored
    string. *)
Fixpoint store_chunks (d : db) (file_id : Z) (content_type : string)
    (to_str : pyobj → string) (idx : Z) (chunks : list extracted) : db :=
  match chunks with
  | [] => d
  | chunk :: rest =>
      let content := default (PStr "") (e_content chunk) in
      let metadata := default meta_empty (e_metadata chunk) in
      store_chunks
        (add_chunk meta_truth meta_dumps d file_id idx (to_str content) content_type
                   (Some metadata))
        file_id content_type to_str (idx + 1)%Z rest
  end.

(** The row that the loop stores for the chunk at position [i], when the
    first row gets the key [first_id]. *)
Definition stored_row (file_id : Z) (content_type : string) (to_str : pyobj → string)
    (first_id : Z) (i : nat) (chunk : extracted) : chunk_row :=
  let metadata := default meta_empty (e_metadata chunk) in
  {| c_id := (first_id + Z.of_nat i)%Z; c_file_id := file_id;
     c_chunk_index := Z.of_nat i;
     c_content := to_str (default (PStr "") (e_content chunk));
     c_content_type := content_type;
     c_metadata := if meta_truth metadata then Some (meta_dumps metadata) else None |}.

(** The store after a run that stored [new_chunks] for a new file: the
    file row, marked as processed, and the rows of the chunks. *)
Definition processed_file (d : db) (filename file_type : string) (file_path : string)
    (size : Z) : file_row :=
  {| f_id := (files_seq d + 1)%Z; f_filename := filename; f_file_type := file_type;
     f_file_path := Some file_path; f_file_size := size; f_processed := true |}.

Definition with_processed_file (d : db) (file : file_row) (content_type : string)
    (to_str : pyobj → string) (new_chunks : list extracted) : db :=
  {| files := files d ++ [file];
     chunks := chunks d
               ++ imap (stored_row (f_id file) content_type to_str (chunks_seq d + 1))
                       new_chunks;
     queries := queries d;
     files_seq := (files_seq d + 1)%Z;
     chunks_seq := (chunks_seq d + Z.of_nat (length new_chunks))%Z;
     queries_seq := queries_seq d |}.

Definition process_file (d : db) (file_path : string) (filename : option string)
    : db * report :=
  let filename := default (basename file_path) filename in
  let file_type := get_file_type file_path in
  let '(d1, file_id) := add_file d filename file_type (Some file_path) (file_size file_path) in
  let store (chunks : list extracted) (content_type : string) : db * report :=
    let d2 := store_chunks d1 file_id content_type content_str 0 chunks in
    (mark_file_processed d2 file_id,
     {| success := true; message := "Successfully processed " +:+ filename;
        file_id := file_id; chunks_count := Some (length chunks) |}) in
  if String.eqb file_type "text" then store (text_process_file file_path) "text"
  else if String.eqb file_type "image" then store (image_process_file file_path) "image"
  else if bool_decide (file_type ∈ ["audio"; "video"])
       then store (av_process_file file_path) "audio_video"
  else (d1, {| success := false; message := "Unsupported file type: " +:+ file_type;
               file_id := file_id; chunks_count := None |}).

(** [str(content)] of any content; the [dict] of an image does not occur
    in YouTube chunks and its [repr] is left to the parameter. *)
Variable repr_dict : gmap string pyval → string.

Definition str_content (content : pyobj) : string :=
  match content with
  | PDict d => repr_dict d
  | PStr s => s
  | POther repr => repr
  end.

Definition process_youtube (d : db) (url : string) : db * report :=
  let filename := "YouTube: " +:+ url in
  let '(d1, file_id) := add_file d filename "youtube" (Some url) 0 in
  let chunks := av_process_youtube url in
  let d2 := store_chunks d1 file_id "audio_video" str_content 0 chunks in
  (mark_file_processed d2 file_id,
   {| success := true; message := "Successfully processed YouTube video";
      file_id := file_id; chunks_count := Some (length chunks) |}).

End Processor.

End FileProcessor.

(** ** Queries with images, and the preview of the interface *)

Module ImageQueries.
Import Str QueryEngine.

(** [isinstance(chunk.get('content'), dict) and
     chunk['content'].get('image_base64')] *)
Definition is_image_chunk (c : chunk) : bool :=
  match content c with
  | Some (PDict d) =>
      match d !! "image_base64" with
      | Some v => truth v
      | None => false
      end
  | _ => false
  end.

Definition image_words : list string :=
  ["image"; "picture"; "photo"; "see"; "show"; "what"; "describe"].

(** The f-string of [query_with_images]. *)
Definition image_prompt_of (text_context user_query : string) : string :=
  "Based on the following context from documents, answer the user's question."
  +:+ nl +:+ nl +:+ "Text Context:" +:+ nl +:+ text_context +:+ nl +:+ nl
  +:+ "User Question: " +:+ user_query +:+ nl +:+ nl +:+ "Answer:".

Definition on_image_error (msg : string) : string :=
  "Error processing query with images: " +:+ msg.

Section Engine.

Variable json_loads : string → result (option pyobj).
Variable generate_content : string → backend_result.
Variable all_chunks : list chunk.

(** [str(e)] of the [AttributeError] that [response.text] raises on a
    response without that attribute. *)
Variable no_text_error : response → string.

Definition query_with_images (user_query : string) : outcome :=
  let image_chunks := filter (λ c, is_image_chunk c) all_chunks in
  match _get_relevant_chunks json_loads all_chunks user_query 5 with
  | Raise msg => {| answer := on_image_error msg; prompts := [] |}
  | Ok relevant_text =>
      match _prepare_context json_loads relevant_text with
      | Raise msg => {| answer := on_image_error msg; prompts := [] |}
      | Ok text_context =>
          if negb (bool_decide (image_chunks = []))
             && existsb (λ word, contains word (lower user_query)) image_words
          then
            let prompt := image_prompt_of text_context user_query in
            {| answer :=
                 match generate_content prompt with
                 | Generated (WithText text) => text
                 | Generated r => on_image_error (no_text_error r)
                 | Failed msg => on_image_error msg
                 end;
               prompts := [prompt] |}
          else query json_loads generate_content all_chunks user_query
      end
  end.

End Engine.

(** The text under [View Relevant Context] ([app.py]): the content,
    decoded if it is JSON; of a record its [ocr_text], or [[Image content]]
    when the key is missing; cut after 500 characters.  An exception of
    [json.loads] that is not caught leaves the loop. *)
Definition preview_text (json_loads : string → result (option pyobj)) (c : chunk)
    : result string :=
  let* content := decoded json_loads (default (PStr "") (content c)) in
  Ok (match content with
      | PDict d => format (default (VStr "[Image content]") (d !! "ocr_text"))
      | other => str_of other
      end).

Definition preview (json_loads : string → result (option pyobj)) (c : chunk)
    : result string :=
  let* content_str := preview_text json_loads c in
  Ok (if (500 <? len content_str)%Z then slice content_str 0 500 +:+ "..."
      else content_str).

End ImageQueries.

(** ** A sample knowledge base

    In the samples a metadata dictionary is its JSON text. *)

Module StoreSamples.
Import KnowledgeBase.

Definition meta_truth (m : string) : bool := negb (String.eqb m "{}").
Definition meta_dumps (m : string) : string := m.
Definition meta_loads (text : string) : string := text.
Definition meta_empty : string := "{}".

Definition source_of (name : string) : string :=
  "{" +:+ dq +:+ "source" +:+ dq +:+ ": " +:+ dq +:+ name +:+ dq +:+ "}".

(** Two files; the chunks of the second were stored before the last chunk
    of the first, and one chunk names a file that does not exist. *)
Definition library : db :=
  let '(d1, notes) := add_file empty "notes.txt" "text" (Some "uploads/notes.txt") 57 in
  let '(d2, photo) := add_file d1 "map.png" "image" (Some "uploads/map.png") 2048 in
  let d3 := add_chunk meta_truth meta_dumps d2 notes 0 "The harbour opens at nine."
              "text" (Some (source_of "uploads/notes.txt")) in
  let d4 := add_chunk meta_truth meta_dumps d3 photo 0 "harbour map" "image" (Some "{}") in
  let d5 := add_chunk meta_truth meta_dumps d4 notes 1 "Boats leave from the east pier."
              "text" None in
  let d6 := add_chunk meta_truth meta_dumps d5 7 0 "left over" "text" None in
  mark_file_processed (mark_file_processed d6 notes) photo.

(** Processors that return fixed chunks, whatever the path. *)
Definition json_dumps (content : gmap string pyval) : string := "{}".
Definition repr_dict (content : gmap string pyval) : string := "{}".
Definition file_size (file_path : string) : Z := 57.

Definition notes_chunks : list (FileProcessor.extracted (M:=string)) :=
  [ {| FileProcessor.e_content := Some (PStr "The harbour opens at nine.");
       FileProcessor.e_metadata := Some (source_of "uploads/notes.txt") |};
    {| FileProcessor.e_content := Some (PStr "Boats leave from the east pier.");
       FileProcessor.e_metadata := None |} ].

Definition text_process_file (file_path : string)
    : list (FileProcessor.extracted (M:=string)) := notes_chunks.
Definition image_process_file (file_path : string)
    : list (FileProcessor.extracted (M:=string)) := [].
Definition av_process_file (file_path : string)
    : list (FileProcessor.extracted (M:=string)) := [].
Definition av_process_youtube (url : string)
    : list (FileProcessor.extracted (M:=string)) :=
  [ {| FileProcessor.e_content := Some (PStr "Welcome to the harbour tour.");
       FileProcessor.e_metadata := Some (source_of url) |} ].

Definition process_file : db → string → option string → db * FileProcessor.report :=
  FileProcessor.process_file meta_truth meta_dumps meta_empty json_dumps file_size
    text_process_file image_process_file av_process_file.

Definition process_youtube : db → string → db * FileProcessor.report :=
  FileProcessor.process_youtube meta_truth meta_dumps meta_empty av_process_youtube
    repr_dict.

End StoreSamples.

(** * Properties *)

(** ** Facts on Python strings *)

Section StrFacts.
Import Str.

Lemma prefix_empty_r (w : string) : String.prefix w "" = true → w = "".
Proof. by destruct w. Qed.

(** [w in ""] holds for the empty [w] only. *)
Lemma contains_empty_r (w : string) : contains w "" = true → w = "".
Proof.
  cbn [contains]. rewrite orb_false_r. apply prefix_empty_r.
Qed.

Lemma append_nonempty (s : string) (c : ascii) : s +:+ String c "" ≠ "".
Proof. by destruct s. Qed.

Lemma split_go_nonempty (cur : option string) (s : string) :
  (∀ w, cur = Some w → w ≠ "") → ∀ w, w ∈ split_go cur s → w ≠ "".
Proof.
  revert cur. induction s as [|c s IH]; intros cur Hcur w; cbn [split_go].
  - destruct cur as [u|]; cbn; [|by intros ?%elem_of_nil].
    intros ->%list_elem_of_singleton. by apply Hcur.
  - destruct (isspace c).
    + rewrite elem_of_app. intros [Hw|Hw].
      * destruct cur as [u|]; cbn in Hw; [|by apply elem_of_nil in Hw].
        apply list_elem_of_singleton in Hw as ->. by apply Hcur.
      * by apply (IH None).
    + apply IH. intros u [= <-]. apply append_nonempty.
Qed.

(** [split()] never yields an empty word. *)
Lemma split_nonempty (s w : string) : w ∈ split s → w ≠ "".
Proof. by apply split_go_nonempty. Qed.

Lemma adjust_inside (n i : Z) : (0 ≤ i ≤ n)%Z → adjust n i = i.
Proof. unfold adjust. intros ?. case_match; lia. Qed.

(** [rfind_from] returns -1 when the character is nowhere in the range,
    and else the last place in the range that holds it. *)
Lemma rfind_from_spec (c : ascii) (s : string) (lo n : nat) :
  let r := rfind_from c s lo n in
  (r = (-1)%Z ∧ ∀ k, lo ≤ k < lo + n → String.get k s ≠ Some c)
  ∨ ((Z.of_nat lo ≤ r < Z.of_nat (lo + n))%Z
     ∧ String.get (Z.to_nat r) s = Some c
     ∧ ∀ k, (r < Z.of_nat k)%Z → k < lo + n → String.get k s ≠ Some c).
Proof.
  induction n as [|n IH]; cbn [rfind_from].
  - left. split; [done|]. lia.
  - destruct (String.get (lo + n) s) as [a|] eqn:Hget.
    + destruct (decide (a = c)) as [->|Hne].
      * right. rewrite Nat2Z.id. split_and!; [lia|lia|done|lia].
      * destruct IH as [[-> Hno]|(Hr & Hat & Hno)].
        -- left. split; [done|]. intros k Hk.
           destruct (decide (k = lo + n)) as [->|]; [congruence|apply Hno; lia].
        -- right. split_and!; [lia|lia|done|]. intros k ? ?.
           destruct (decide (k = lo + n)) as [->|]; [congruence|apply Hno; lia].
    + destruct IH as [[-> Hno]|(Hr & Hat & Hno)].
      * left. split; [done|]. intros k Hk.
        destruct (decide (k = lo + n)) as [->|]; [congruence|apply Hno; lia].
      * right. split_and!; [lia|lia|done|]. intros k ? ?.
        destruct (decide (k = lo + n)) as [->|]; [congruence|apply Hno; lia].
Qed.

End StrFacts.

(** ** The text segmenter *)

Section SegmenterFacts.
Import Str TextProcessor.
Local Open Scope Z_scope.

Variables (text : string) (chunk_size overlap : Z).

(** Every pass moves [start] forward, whatever the sizes are. *)
Lemma loop_body_advances (st : loop_state) :
  start st < start (loop_body text chunk_size overlap st).
Proof. cbn. lia. Qed.

(** More passes than needed change nothing. *)
Lemma loop_more_fuel (fuel fuel' : nat) (st st' : loop_state) :
  (fuel ≤ fuel')%nat →
  loop fuel text chunk_size overlap st = Some st' →
  loop fuel' text chunk_size overlap st = Some st'.
Proof.
  revert fuel' st. induction fuel as [|fuel IH]; intros fuel' st Hle.
  - destruct fuel'; cbn; case_match; try done.
  - destruct fuel' as [|fuel']; [lia|]. cbn.
    case_match; [|done]. apply IH. lia.
Qed.

(** The loop ends within as many passes as characters are left. *)
Lemma loop_ends (fuel : nat) (st : loop_state) :
  len text - start st ≤ Z.of_nat fuel →
  ∃ st', loop fuel text chunk_size overlap st = Some st' ∧ len text ≤ start st'.
Proof.
  revert st. induction fuel as [|fuel IH]; intros st Hfuel.
  - cbn. destruct (start st <? len text) eqn:Hlt; [lia|].
    exists st. split; [done|lia].
  - cbn [loop]. destruct (start st <? len text) eqn:Hlt.
    + apply IH. pose proof (loop_body_advances st). lia.
    + exists st. split; [done|lia].
Qed.

Lemma loop_keeps_cut (fuel : nat) (st st' : loop_state) :
  0 ≤ start st →
  Forall (cut_at_chunk_end text chunk_size) (chunks st) →
  loop fuel text chunk_size overlap st = Some st' →
  Forall (cut_at_chunk_end text chunk_size) (chunks st').
Proof.
  revert st. induction fuel as [|fuel IH]; intros st Hstart Hinv; cbn [loop].
  - case_match; [done|]. by intros [= <-].
  - case_match; [|by intros [= <-]].
    apply IH.
    + pose proof (loop_body_advances st). lia.
    + cbn. case_match; [|done].
      apply Forall_app. split; [done|].
      apply Forall_singleton. intros sp [= <-]. by cbn.
Qed.

Lemma rfind_hit (c : ascii) (i j : Z) :
  0 ≤ i ≤ j → j ≤ len text →
  rfind text c i j ≠ -1 →
  i ≤ rfind text c i j < j ∧
  String.get (Z.to_nat (rfind text c i j)) text = Some c.
Proof.
  intros Hij Hj. unfold rfind.
  rewrite !adjust_inside by lia.
  pose proof (rfind_from_spec c text (Z.to_nat i) (Z.to_nat (j - i))) as Hspec.
  cbn zeta in Hspec. destruct Hspec as [[-> _]|(Hr & Hat & _)]; [done|].
  intros _. split; [lia|done].
Qed.

Lemma rfind_none_after (c : ascii) (i j k : Z) :
  0 ≤ i ≤ j → j ≤ len text →
  i ≤ k < j → rfind text c i j < k →
  String.get (Z.to_nat k) text ≠ Some c.
Proof.
  intros Hij Hj Hk. unfold rfind.
  rewrite !adjust_inside by lia.
  pose proof (rfind_from_spec c text (Z.to_nat i) (Z.to_nat (j - i))) as Hspec.
  cbn zeta in Hspec. destruct Hspec as [[_ Hno]|(Hr & _ & Hno)]; intros Hlt.
  - apply Hno. lia.
  - apply Hno; lia.
Qed.

(** Where the code searches for a boundary, it cuts by the rule. *)
Lemma chunk_end_by_rule (start : Z) :
  0 ≤ start → 0 ≤ chunk_size → start + chunk_size < len text →
  ends_by_rule text chunk_size start (chunk_end text chunk_size start).
Proof.
  intros Hstart Hsize Hinside. unfold chunk_end.
  destruct (start + chunk_size <? len text) eqn:Hlt; [|lia].
  set (e := start + chunk_size).
  assert (Hafter : ∀ j, start ≤ j < e → sentence_end text start e < j →
                        ¬ is_sentence_end text j).
  { intros j Hj Hse (_ & c & Hget & Hc). unfold sentence_end in Hse.
    destruct Hc as [-> | [-> | [-> | ->]]];
      (eapply (rfind_none_after _ start e j); [lia|lia|lia| |done]); lia. }
  destruct (sentence_end text start e >? start) eqn:Hgt.
  - left. exists (sentence_end text start e).
    assert (Hone : ∃ c, (c = "."%char ∨ c = "!"%char ∨ c = "?"%char ∨ c = "010"%char)
                        ∧ sentence_end text start e = rfind text c start e).
    { unfold sentence_end.
      destruct (Z.max_spec (Z.max (Z.max (rfind text "." start e) (rfind text "!" start e))
                                  (rfind text "?" start e)) (rfind text "010" start e))
        as [[_ ->]|[_ ->]]; [by eauto 10|].
      destruct (Z.max_spec (Z.max (rfind text "." start e) (rfind text "!" start e))
                           (rfind text "?" start e)) as [[_ ->]|[_ ->]]; [by eauto 10|].
      destruct (Z.max_spec (rfind text "." start e) (rfind text "!" start e))
        as [[_ ->]|[_ ->]]; by eauto 10. }
    destruct Hone as (c & Hc & Heq).
    destruct (rfind_hit c start e) as [Hin Hget]; [lia|lia|lia|].
    rewrite <-Heq in Hin, Hget.
    split_and!; [lia|lia| |intros j Hj; apply Hafter; lia|done].
    split; [lia|]. by exists c.
  - right. split; [|done]. intros j Hj. apply Hafter; lia.
Qed.

End SegmenterFacts.

Section SegmenterClaims.
Import Str TextProcessor.
Local Open Scope Z_scope.

(** C9.  The segmenter terminates on every input.  Every pass of the loop
    moves [start] forward by at least one character, for every
    [chunk_size] and [overlap]; the loop over the cleaned text therefore
    leaves through its condition within [len(text)] passes; and
    [_split_text] returns a list of chunks, the same one however many more
    passes are allowed. *)
Theorem split_text_total (text : string) (chunk_size overlap : Z) :
  (∀ st, start st < start (loop_body (clean text) chunk_size overlap st))
  ∧ (∃ st', loop (String.length (clean text)) (clean text) chunk_size overlap initial
              = Some st'
            ∧ len (clean text) ≤ start st')
  ∧ (∃ pieces, _split_text text chunk_size overlap = Some pieces
               ∧ ∀ fuel, (String.length (clean text) ≤ fuel)%nat →
                   split_text_within fuel text chunk_size overlap = Some pieces).
Proof.
  split; [apply loop_body_advances|].
  destruct (loop_ends (clean text) chunk_size overlap
              (String.length (clean text)) initial) as (st' & Hloop & Hexit).
  { unfold len. cbn. lia. }
  split; [by exists st'|].
  unfold _split_text, split_text_within.
  destruct (String.eqb text "" || String.eqb (strip text) ""); [by eauto|].
  rewrite Hloop. cbn. eexists. split; [done|].
  intros fuel Hfuel.
  by rewrite (loop_more_fuel _ _ _ _ _ _ _ Hfuel Hloop).
Qed.

(** C4, as amended.  Every chunk that [_split_text] emits with positions
    ends by the boundary rule when its window stops before the end of the
    cleaned text ([start + chunk_size < len(text)]); in the last window
    ([start + chunk_size >= len(text)]) the code does not search and the
    chunk ends at [start + chunk_size]. *)
Theorem split_text_chunk_ends (text : string) (chunk_size overlap : Z)
    (pieces : list piece) (p : piece) (sp : span) :
  0 ≤ chunk_size →
  _split_text text chunk_size overlap = Some pieces →
  p ∈ pieces →
  metadata p = Some sp →
  (start_pos sp + chunk_size < len (clean text) →
     ends_by_rule (clean text) chunk_size (start_pos sp) (end_pos sp))
  ∧ (len (clean text) ≤ start_pos sp + chunk_size →
     end_pos sp = start_pos sp + chunk_size).
Proof.
  intros Hsize Hsplit Hp Hmeta.
  assert (Hcut : cut_at_chunk_end (clean text) chunk_size p).
  { unfold _split_text, split_text_within in Hsplit.
    destruct (String.eqb text "" || String.eqb (strip text) "").
    { injection Hsplit as <-. apply list_elem_of_singleton in Hp as ->.
      by intros ? [=]. }
    destruct (loop _ _ _ _ _) as [st'|] eqn:Hloop; [|done]. cbn in Hsplit.
    assert (Hinv : Forall (cut_at_chunk_end (clean text) chunk_size) (chunks st')).
    { eapply loop_keeps_cut; [| |exact Hloop]; [done|by constructor]. }
    destruct (chunks st') as [|p0 ps] eqn:Hchunks; injection Hsplit as <-.
    - apply list_elem_of_singleton in Hp as ->. by intros ? [=].
    - by eapply Forall_forall in Hinv. }
  destruct (Hcut sp Hmeta) as [Hstart ->].
  split.
  - intros Hinside. by apply chunk_end_by_rule.
  - intros Hlast. unfold chunk_end.
    destruct (start_pos sp + chunk_size <? len (clean text)) eqn:Hlt; [lia|done].
Qed.

(** Witness of [split_text_chunk_ends]: the first chunk of a text of three
    sentences, cut with windows of eight characters. *)
Lemma split_text_chunk_ends_witness :
  ends_by_rule (clean "One. Two!  Three? Four") 8 0 4.
Proof.
  refine (proj1 (split_text_chunk_ends "One. Two!  Three? Four" 8 3
            (default [] (_split_text "One. Two!  Three? Four" 8 3))
            {| content := "One.";
               metadata := Some {| chunk_index := 0; start_pos := 0; end_pos := 4 |} |}
            {| chunk_index := 0; start_pos := 0; end_pos := 4 |} _ _ _ _) _).
  - lia.
  - vm_compute. reflexivity.
  - vm_compute. apply list_elem_of_here.
  - reflexivity.
  - vm_compute. reflexivity.
Defined.

(** C4, as stated, fails in the last window.  With the default sizes the
    text [Hi. Bye] is one window that reaches past the end of the text:
    the chunk is emitted with [end_pos = 1000], although the window holds a
    full stop after its start, by which the rule would end the chunk at 3. *)
Lemma last_window_not_cut_by_rule :
  _split_text "Hi. Bye" 1000 200
  = Some [ {| content := "Hi. Bye";
              metadata := Some {| chunk_index := 0; start_pos := 0; end_pos := 1000 |} |} ]
  ∧ is_sentence_end (clean "Hi. Bye") 2
  ∧ ¬ ends_by_rule (clean "Hi. Bye") 1000 0 1000.
Proof.
  assert (Hdot : is_sentence_end (clean "Hi. Bye") 2).
  { split; [lia|]. exists "."%char. split; [reflexivity|by left]. }
  split_and!; [by vm_compute|done|].
  intros [(i & Hi & (_ & c & Hget & _) & _ & Heq)|[Hno _]].
  - assert (i = 999) as -> by lia. vm_compute in Hget. discriminate.
  - apply (Hno 2); [lia|done].
Qed.

End SegmenterClaims.

(** ** The ranker *)

Section SortFacts.
Import QueryEngine.
Context {A : Type}.
Implicit Types (x : nat * A) (l : list (nat * A)).

Lemma insert_desc_perm x l : insert_desc x l ≡ₚ x :: l.
Proof.
  induction l as [|y l IH]; cbn [insert_desc]; [done|].
  case_match; [|done]. rewrite IH. apply Permutation_swap.
Qed.

Lemma sort_desc_perm l : sort_desc l ≡ₚ l.
Proof.
  induction l as [|x l IH]; cbn; [done|].
  by rewrite insert_desc_perm, IH.
Qed.

Lemma insert_desc_sorted x l :
  StronglySorted (λ a b, b.1 ≤ a.1) l →
  StronglySorted (λ a b, b.1 ≤ a.1) (insert_desc x l).
Proof.
  induction 1 as [|y l Hl IH Hy]; cbn [insert_desc].
  - by repeat constructor.
  - destruct (x.1 <? y.1) eqn:Hlt.
    + apply Nat.ltb_lt in Hlt. constructor; [done|].
      rewrite insert_desc_perm. constructor; [lia|done].
    + apply Nat.ltb_ge in Hlt. constructor; [by constructor|].
      constructor; [done|].
      eapply Forall_impl; [exact Hy|]. cbn. intros; lia.
Qed.

Lemma sort_desc_sorted l : StronglySorted (λ a b, b.1 ≤ a.1) (sort_desc l).
Proof.
  induction l as [|x l IH]; cbn; [constructor|]. by apply insert_desc_sorted.
Qed.

(** Insertion passes over greater scores only, so the elements of any one
    score keep their order. *)
Lemma insert_desc_stable (k : nat) x l :
  filter (λ a, a.1 = k) (insert_desc x l) = filter (λ a, a.1 = k) (x :: l).
Proof.
  induction l as [|y l IH]; cbn [insert_desc]; [done|].
  destruct (x.1 <? y.1) eqn:Hlt; [|done].
  apply Nat.ltb_lt in Hlt.
  rewrite (filter_cons _ y), IH, !filter_cons.
  repeat case_decide; try done; lia.
Qed.

Lemma sort_desc_stable (k : nat) l :
  filter (λ a, a.1 = k) (sort_desc l) = filter (λ a, a.1 = k) l.
Proof.
  induction l as [|x l IH]; cbn [sort_desc]; [done|].
  by rewrite insert_desc_stable, !filter_cons, IH.
Qed.

Lemma slice_to_take (l : list A) (limit : Z) :
  (0 ≤ limit)%Z → slice_to l limit = take (Z.to_nat limit) l.
Proof.
  intros Hlimit. unfold slice_to, Str.adjust.
  destruct (limit <? 0)%Z eqn:Hneg; [lia|].
  destruct (decide (limit ≤ Z.of_nat (length l))%Z).
  - by rewrite Z.min_l.
  - rewrite Z.min_r, Nat2Z.id by lia. rewrite !take_ge; [done|lia|lia].
Qed.

Lemma slice_to_subseteq (l : list A) (limit : Z) : slice_to l limit ⊆ l.
Proof. apply subseteq_take. Qed.

End SortFacts.

Section RankerFacts.
Import Str QueryEngine.

Variable json_loads : string → result (option pyobj).

Lemma sum_indicator_filter {B : Type} (f : B → bool) (l : list B) :
  sum_list_with (λ b, if f b then 1 else 0) l = length (filter (λ b, f b) l).
Proof.
  induction l as [|b l IH]; [done|].
  rewrite filter_cons. cbn [sum_list_with]. rewrite IH.
  destruct (f b); by case_decide.
Qed.

(** The sum over the set of query words counts each distinct word once. *)
Lemma score_of_distinct_hits (query content_text : string) :
  score_of (query_words query) content_text = distinct_hits query content_text.
Proof.
  unfold score_of, distinct_hits, query_words.
  rewrite sum_indicator_filter.
  assert (Hperm : elements (list_to_set (C:=gset string) (split (lower query)))
                  ≡ₚ remove_dups (split (lower query))).
  { apply NoDup_Permutation; [apply NoDup_elements|apply NoDup_remove_dups|].
    intros w. by rewrite elem_of_elements, elem_of_list_to_set, elem_of_remove_dups. }
  by rewrite Hperm.
Qed.

Lemma query_words_empty : query_words "" = ∅.
Proof. done. Qed.

Lemma score_of_no_words (content_text : string) : score_of ∅ content_text = 0.
Proof. unfold score_of. by rewrite elements_empty. Qed.

(** No word of a query occurs in the empty text. *)
Lemma score_of_empty_text (query : string) : score_of (query_words query) "" = 0.
Proof.
  rewrite score_of_distinct_hits. unfold distinct_hits.
  destruct (filter _ _) as [|w ws] eqn:Hfilter; [done|].
  assert (Hw : w ∈ w :: ws) by left.
  rewrite <-Hfilter in Hw. apply list_elem_of_filter in Hw as [Hin Hw].
  apply Is_true_true, contains_empty_r in Hin.
  apply elem_of_remove_dups, split_nonempty in Hw. done.
Qed.

Lemma returns_ok {B : Type} (m : result B) : returns m ↔ ∃ b, m = Ok b.
Proof. destruct m; cbn; split; try done; [by eauto|by intros [? ?]]. Qed.

(** Reading a content, in the words of the data model, is what [decoded]
    does when it returns. *)
Lemma reads_as_decoded (content value : pyobj) :
  reads_as json_loads content value ↔ decoded json_loads content = Ok value.
Proof.
  unfold reads_as, decoded. destruct content as [s|d|repr].
  - destruct (json_loads s) as [[v|]|msg]; cbn; split.
    + by intros [[= ->]|[? _]].
    + intros [= ->]. by left.
    + by intros [?|[_ ->]].
    + intros [= <-]. by right.
    + by intros [?|[? _]].
    + done.
  - split; [by intros ->|by intros [= ->]].
  - split; [by intros ->|by intros [= ->]].
Qed.

Lemma chunk_score_returns (words : gset string) (c : chunk) :
  returns (chunk_score json_loads words c) ↔ returns (scoring_text json_loads c).
Proof. unfold chunk_score. by destruct (scoring_text json_loads c). Qed.

(** The loop returns exactly when no chunk raises, and then it has
    appended the positively scored chunks in the order of the store. *)
Lemma score_chunks_ok (words : gset string) (chunks : list chunk)
    (acc : list (nat * chunk)) :
  Forall (λ c, returns (chunk_score json_loads words c)) chunks →
  score_chunks json_loads words chunks acc
  = Ok (acc ++ positively_scored json_loads words chunks).
Proof.
  intros Hall. revert acc.
  induction Hall as [|c chunks [n Hn]%returns_ok _ IH]; intros acc;
    cbn [score_chunks positively_scored omap list_omap].
  - by rewrite app_nil_r.
  - rewrite Hn. cbn [bind]. rewrite IH. fold (positively_scored json_loads words chunks).
    destruct (0 <? n) eqn:Hpos; [|done].
    by rewrite <-app_assoc.
Qed.

Lemma score_chunks_inv (words : gset string) (chunks : list chunk)
    (acc scored : list (nat * chunk)) :
  score_chunks json_loads words chunks acc = Ok scored →
  Forall (λ c, returns (chunk_score json_loads words c)) chunks.
Proof.
  revert acc. induction chunks as [|c chunks IH]; intros acc; cbn; [by constructor|].
  destruct (chunk_score json_loads words c) as [n|msg] eqn:Hn; cbn; [|done].
  intros Hrest. constructor; [by rewrite Hn|by eapply IH].
Qed.

Lemma positively_scored_spec (words : gset string) (chunks : list chunk)
    (n : nat) (c : chunk) :
  (n, c) ∈ positively_scored json_loads words chunks
  ↔ c ∈ chunks ∧ chunk_score json_loads words c = Ok n ∧ 0 < n.
Proof.
  unfold positively_scored. rewrite list_elem_of_omap. split.
  - intros (c' & Hin & Hsome).
    destruct (chunk_score json_loads words c') as [m|] eqn:Hm; [|done].
    destruct (0 <? m) eqn:Hpos; [|done].
    injection Hsome as -> ->. apply Nat.ltb_lt in Hpos. done.
  - intros (Hin & Hn & Hpos). exists c. split; [done|].
    rewrite Hn. by apply Nat.ltb_lt in Hpos as ->.
Qed.

(** The chunks of one positive score stand in [scored_chunks] as they
    stand in the store. *)
Lemma positively_scored_stable (words : gset string) (chunks : list chunk) (k : nat) :
  0 < k →
  (filter (λ a, a.1 = k) (positively_scored json_loads words chunks)).*2
  = filter (λ c, chunk_score json_loads words c = Ok k) chunks.
Proof.
  intros Hk. unfold positively_scored.
  induction chunks as [|c chunks IH]; [done|].
  rewrite (filter_cons _ c). cbn [omap list_omap].
  destruct (chunk_score json_loads words c) as [n|msg] eqn:Hn.
  - destruct (0 <? n) eqn:Hpos.
    + rewrite filter_cons. cbn [fst].
      destruct (decide (n = k)) as [->|Hne].
      * rewrite decide_True by done. rewrite fmap_cons. cbn [snd]. by rewrite IH.
      * rewrite decide_False by congruence. done.
    + apply Nat.ltb_ge in Hpos. rewrite decide_False; [done|].
      intros [= ->]. lia.
  - rewrite decide_False by done. done.
Qed.

(** Every chunk that the ranker returns is a chunk of the store with a
    positive score. *)
Lemma relevant_chunk_scores (all_chunks relevant : list chunk) (query : string)
    (limit : Z) (c : chunk) :
  _get_relevant_chunks json_loads all_chunks query limit = Ok relevant →
  c ∈ relevant →
  c ∈ all_chunks ∧
  ∃ n, chunk_score json_loads (query_words query) c = Ok n ∧ 0 < n.
Proof.
  unfold _get_relevant_chunks.
  destruct (score_chunks _ _ _ _) as [scored|msg] eqn:Hscored; cbn; [|done].
  intros [= <-] Hin.
  pose proof (score_chunks_inv _ _ _ _ Hscored) as Hall.
  rewrite (score_chunks_ok _ _ _ Hall) in Hscored. injection Hscored as <-.
  apply list_elem_of_fmap in Hin as ([n c'] & -> & Hin).
  apply slice_to_subseteq in Hin. rewrite sort_desc_perm in Hin. cbn in Hin.
  apply positively_scored_spec in Hin as (? & ? & ?). eauto.
Qed.

End RankerFacts.

Section RankerClaims.
Import Str QueryEngine.

Variable json_loads : string → result (option pyobj).

(** X26.  When no chunk of the store raises while it is scored and [limit]
    is not negative, [_get_relevant_chunks] returns the first [limit]
    chunks of a list [ranked] that holds positively scored chunks of the
    store with their scores; that holds, for every positive score, the
    chunks of that score exactly as they follow one another in the store
    (all of them, in the order of the store: the sort is stable and has no
    second key); and that is sorted by score, highest first.  The result
    has at most [limit] chunks. *)
Theorem relevant_chunks_ranked (all_chunks : list chunk) (query : string) (limit : Z) :
  (0 ≤ limit)%Z →
  Forall (λ c, returns (scoring_text json_loads c)) all_chunks →
  ∃ ranked : list (nat * chunk),
    Forall (λ a, chunk_score json_loads (query_words query) a.2 = Ok a.1 ∧ 0 < a.1) ranked
    ∧ (∀ k, 0 < k →
         (filter (λ a, a.1 = k) ranked).*2
         = filter (λ c, chunk_score json_loads (query_words query) c = Ok k) all_chunks)
    ∧ StronglySorted (λ a b, b.1 ≤ a.1) ranked
    ∧ _get_relevant_chunks json_loads all_chunks query limit
      = Ok (take (Z.to_nat limit) ranked.*2)
    ∧ (Z.of_nat (length (take (Z.to_nat limit) ranked.*2)) ≤ limit)%Z.
Proof.
  intros Hlimit Hall.
  exists (sort_desc (positively_scored json_loads (query_words query) all_chunks)).
  split_and!.
  - apply Forall_forall. intros [n c] Hin. rewrite sort_desc_perm in Hin.
    by apply positively_scored_spec in Hin as (_ & ? & ?).
  - intros k Hk. rewrite sort_desc_stable. by apply positively_scored_stable.
  - apply sort_desc_sorted.
  - unfold _get_relevant_chunks. rewrite score_chunks_ok.
    + cbn [bind app]. by rewrite slice_to_take, fmap_take.
    + eapply Forall_impl; [exact Hall|]. intros c. by rewrite chunk_score_returns.
  - rewrite length_take. lia.
Qed.

(** C2, as amended.  The score of a chunk is the number of distinct words
    of the lower-cased query (split at white space) that occur somewhere
    in the lower-cased text that the ranker takes from the chunk, a word
    inside a longer one counting as well.  The text is taken from the
    content as it is read: a string that is not JSON is its own text; a
    record gives its [ocr_text], and the empty string, not the
    placeholder, when it has none; any other value gives its [str()].  A
    chunk whose score is 0 is in no result of the ranker. *)
Theorem score_counts_distinct_query_words (query : string) (c : chunk) (value : pyobj) :
  reads_as json_loads (default (PStr "") (content c)) value →
  (∀ text, value = PStr text →
     chunk_score json_loads (query_words query) c
     = Ok (distinct_hits query (lower text)))
  ∧ (∀ d ocr_text, value = PDict d → d !! "ocr_text" = Some (VStr ocr_text) →
       chunk_score json_loads (query_words query) c
       = Ok (distinct_hits query (lower ocr_text)))
  ∧ (∀ d, value = PDict d → d !! "ocr_text" = None →
       chunk_score json_loads (query_words query) c = Ok 0)
  ∧ (∀ repr, value = POther repr →
       chunk_score json_loads (query_words query) c
       = Ok (distinct_hits query (lower repr)))
  ∧ ∀ (all_chunks relevant : list chunk) (limit : Z),
      _get_relevant_chunks json_loads all_chunks query limit = Ok relevant →
      chunk_score json_loads (query_words query) c = Ok 0 →
      c ∉ relevant.
Proof.
  intros Hdecoded%reads_as_decoded.
  unfold chunk_score, scoring_text. rewrite Hdecoded. cbn [bind].
  split_and!.
  - intros text ->. cbn [bind str_of]. by rewrite score_of_distinct_hits.
  - intros d ocr_text -> ->. cbn [default from_option id bind].
    by rewrite score_of_distinct_hits.
  - intros d -> ->. cbn [default from_option id bind lower].
    by rewrite score_of_empty_text.
  - intros repr ->. cbn [bind str_of]. by rewrite score_of_distinct_hits.
  - intros all_chunks relevant limit Hrank Hzero Hin.
    destruct (relevant_chunk_scores _ _ _ _ _ _ Hrank Hin) as (_ & n & Hn & Hpos).
    unfold chunk_score, scoring_text in Hn. rewrite Hdecoded in Hn. cbn [bind] in Hn.
    rewrite Hzero in Hn. injection Hn as <-. lia.
Qed.

(** X27.  The empty query has no words, so every chunk that can be scored
    scores 0, and the ranker returns the empty list, for every store in
    which no chunk raises while it is scored and for every [limit]. *)
Theorem empty_query_retrieves_nothing (all_chunks : list chunk) (limit : Z) :
  Forall (λ c, returns (scoring_text json_loads c)) all_chunks →
  query_words "" = ∅
  ∧ Forall (λ c, chunk_score json_loads (query_words "") c = Ok 0) all_chunks
  ∧ _get_relevant_chunks json_loads all_chunks "" limit = Ok [].
Proof.
  intros Hall.
  assert (Hzero : Forall (λ c, chunk_score json_loads (query_words "") c = Ok 0) all_chunks).
  { eapply Forall_impl; [exact Hall|]. intros c [t Ht]%returns_ok. unfold chunk_score.
    rewrite Ht. cbn [bind]. by rewrite query_words_empty, score_of_no_words. }
  split_and!; [done|done|].
  unfold _get_relevant_chunks. rewrite score_chunks_ok.
  - destruct (positively_scored _ _ _) as [|[n c] l] eqn:Hscored.
    { cbn [bind app sort_desc]. unfold slice_to. by rewrite take_nil. }
    assert (Hin : (n, c) ∈ positively_scored json_loads (query_words "") all_chunks)
      by (rewrite Hscored; left).
    apply positively_scored_spec in Hin as (Hc & Hn & Hpos).
    rewrite Forall_forall in Hzero. rewrite (Hzero c Hc) in Hn.
    injection Hn as <-. lia.
  - eapply Forall_impl; [exact Hzero|]. intros c Hc. apply returns_ok. by exists 0.
Qed.

(** C10.  A chunk whose stored content decodes to a record without
    [ocr_text], or with the empty string as its [ocr_text], scores 0 for
    every query and is in no result of the ranker. *)
Theorem image_without_ocr_text_is_never_retrieved (query stored : string)
    (c : chunk) (d : gmap string pyval) :
  content c = Some (PStr stored) →
  json_loads stored = Ok (Some (PDict d)) →
  d !! "ocr_text" = None ∨ d !! "ocr_text" = Some (VStr "") →
  chunk_score json_loads (query_words query) c = Ok 0
  ∧ ∀ (all_chunks relevant : list chunk) (limit : Z),
      _get_relevant_chunks json_loads all_chunks query limit = Ok relevant →
      c ∉ relevant.
Proof.
  intros Hcontent Hdecoded Hocr.
  assert (Hzero : chunk_score json_loads (query_words query) c = Ok 0).
  { assert (Hrecord : decoded json_loads (default (PStr "") (content c)) = Ok (PDict d)).
    { rewrite Hcontent. cbn. by rewrite Hdecoded. }
    unfold chunk_score, scoring_text. rewrite Hrecord. cbn [bind].
    destruct Hocr as [-> | ->]; cbn [default from_option id bind lower];
      by rewrite score_of_empty_text. }
  split; [done|].
  intros all_chunks relevant limit Hrank Hin.
  destruct (relevant_chunk_scores _ _ _ _ _ _ Hrank Hin) as (_ & n & Hn & Hpos).
  rewrite Hzero in Hn. injection Hn as <-. lia.
Qed.

(** C3, as amended.  For a content that is a record, or a string that
    decodes to one, without [ocr_text]: the assembler shows the fixed
    placeholder, and the ranker scores the empty string. *)
Theorem record_without_ocr_text (c : chunk) (d : gmap string pyval) :
  decoded json_loads (default (PStr "") (content c)) = Ok (PDict d) →
  d !! "ocr_text" = None →
  context_text json_loads c = Ok image_placeholder
  ∧ scoring_text json_loads c = Ok "".
Proof.
  intros Hdecoded Hocr. unfold context_text, scoring_text.
  rewrite Hdecoded. cbn [bind]. by rewrite Hocr.
Qed.

End RankerClaims.

Section RankerSamples.
Import Str QueryEngine Samples.

(** Witness of [relevant_chunks_ranked]: the two best chunks of the sample
    store for the sample question. *)
Lemma relevant_chunks_ranked_witness :
  ∃ ranked : list (nat * chunk),
    Forall (λ a, chunk_score Json.loads (query_words question) a.2 = Ok a.1 ∧ 0 < a.1) ranked
    ∧ (∀ k, 0 < k →
         (filter (λ a, a.1 = k) ranked).*2
         = filter (λ c, chunk_score Json.loads (query_words question) c = Ok k) store)
    ∧ StronglySorted (λ a b, b.1 ≤ a.1) ranked
    ∧ _get_relevant_chunks Json.loads store question 2 = Ok (take (Z.to_nat 2) ranked.*2)
    ∧ (Z.of_nat (length (take (Z.to_nat 2) ranked.*2)) ≤ 2)%Z.
Proof.
  apply (relevant_chunks_ranked Json.loads store question 2).
  - lia.
  - unfold store. repeat (apply List.Forall_cons; [by vm_compute|]). apply List.Forall_nil.
Defined.

(** The ranking of the sample store: the two chunks of score 1 follow the
    chunks of score 4 and 3 in the order of the store. *)
Example relevant_chunks_sample :
  _get_relevant_chunks Json.loads store question 10 = Ok [geo; tour; notes; photo].
Proof. by vm_compute. Qed.

(** C1 fails on a store that holds a chunk the ranker cannot score.  The
    text file [odd_file] holds one line, which the segmenter keeps as its
    only chunk; the line decodes to a record whose [ocr_text] is the
    number 1; [.lower()] raises on it and the ranker returns no list,
    although [geo] scores 4 for the question.  The assembler shows the
    same chunk without raising. *)
Lemma ranker_raises_on_unscorable_chunk :
  TextProcessor._split_text ("{" +:+ quoted "ocr_text" +:+ ": 1}") 1000 200
  = Some [ {| TextProcessor.content := "{" +:+ quoted "ocr_text" +:+ ": 1}";
              TextProcessor.metadata :=
                Some {| TextProcessor.chunk_index := 0; TextProcessor.start_pos := 0;
                        TextProcessor.end_pos := 1000 |} |} ]
  ∧ content odd_file = Some (PStr ("{" +:+ quoted "ocr_text" +:+ ": 1}"))
  ∧ Json.loads ("{" +:+ quoted "ocr_text" +:+ ": 1}")
    = Ok (Some (PDict {[ "ocr_text" := VOther "int" "1" true ]}))
  ∧ chunk_score Json.loads (query_words question) geo = Ok 4
  ∧ _get_relevant_chunks Json.loads [geo; odd_file] question 10
    = Raise "'int' object has no attribute 'lower'"
  ∧ context_text Json.loads odd_file = Ok "1".
Proof. split_and!; by vm_compute. Qed.

(** C5 fails on the same kind of store: for the empty query the ranker
    raises instead of returning the empty list. *)
Lemma empty_query_raises_on_unscorable_chunk :
  _get_relevant_chunks Json.loads [geo; odd_file; notes] "" 10
  = Raise "'int' object has no attribute 'lower'"
  ∧ _get_relevant_chunks Json.loads [geo; odd_file; notes] "" 10 ≠ Ok [].
Proof. split; by vm_compute. Qed.

(** Witness of [score_counts_distinct_query_words]: an image record, whose
    text is its [ocr_text] and not its JSON text; a query that repeats a
    word; and a chunk of score 0 against the ranking of the sample
    store. *)
Lemma score_counts_distinct_query_words_witness :
  chunk_score Json.loads (query_words "Paris paris QUJD") photo
  = Ok (distinct_hits "Paris paris QUJD" "paris by night")
  ∧ distinct_hits "Paris paris QUJD" "paris by night" = 1
  ∧ empty_file ∉ [geo; tour; notes; photo].
Proof.
  assert (reads_as Json.loads (default (PStr "") (content photo))
            (PDict {[ "ocr_text" := VStr "Paris by night"; "image_base64" := VStr "QUJD";
                      "has_text" := VOther "bool" "True" true ]})) as Hphoto.
  { left. by vm_compute. }
  assert (reads_as Json.loads (default (PStr "") (content empty_file)) (PStr "")) as Hempty.
  { right. by vm_compute. }
  split_and!.
  - apply (proj1 (proj2 (score_counts_distinct_query_words Json.loads "Paris paris QUJD"
                           photo _ Hphoto)) _ "Paris by night" eq_refl).
    by vm_compute.
  - by vm_compute.
  - apply (proj2 (proj2 (proj2 (proj2 (score_counts_distinct_query_words Json.loads question
                                         empty_file _ Hempty))))
             store [geo; tour; notes; photo] 10%Z).
    + vm_compute. reflexivity.
    + vm_compute. reflexivity.
Defined.

(** C2, as stated, fails for the text.  [bare_record] decodes to a record
    without [ocr_text]: its canonical text is the placeholder, in which the
    word [image] occurs, and the ranker scores the chunk 0.  The text file
    [quoted_file] holds a JSON string: the word of the query occurs in the
    stored text, quotes included, and the ranker scores the decoded value,
    which has no quotes. *)
Lemma score_is_not_of_canonical_text :
  Json.loads bare_record = Ok (Some (PDict bare_dict))
  ∧ bare_dict !! "ocr_text" = None
  ∧ distinct_hits "image" (lower image_placeholder) = 1
  ∧ chunk_score Json.loads (query_words "image") bare_photo = Ok 0
  ∧ Json.loads (quoted "harbour") = Ok (Some (PStr "harbour"))
  ∧ distinct_hits (quoted "harbour") (lower (quoted "harbour")) = 1
  ∧ chunk_score Json.loads (query_words (quoted "harbour")) quoted_file = Ok 0.
Proof. split_and!; by vm_compute. Qed.

(** Witness of [empty_query_retrieves_nothing] on the sample store. *)
Lemma empty_query_retrieves_nothing_witness :
  query_words "" = ∅
  ∧ Forall (λ c, chunk_score Json.loads (query_words "") c = Ok 0) store
  ∧ _get_relevant_chunks Json.loads store "" 10 = Ok [].
Proof.
  apply (empty_query_retrieves_nothing Json.loads store 10).
  unfold store. repeat (apply List.Forall_cons; [by vm_compute|]). apply List.Forall_nil.
Defined.

(** Witness of [image_without_ocr_text_is_never_retrieved]: the image whose
    OCR found no text, asked for with a word of the placeholder. *)
Lemma image_without_ocr_text_is_never_retrieved_witness :
  chunk_score Json.loads (query_words "image") blank_photo = Ok 0
  ∧ ∀ (all_chunks relevant : list chunk) (limit : Z),
      _get_relevant_chunks Json.loads all_chunks "image" limit = Ok relevant →
      blank_photo ∉ relevant.
Proof.
  apply (image_without_ocr_text_is_never_retrieved Json.loads "image" (image_record "")
           blank_photo
           {[ "ocr_text" := VStr ""; "image_base64" := VStr "QUJD";
              "has_text" := VOther "bool" "False" false ]}).
  - reflexivity.
  - vm_compute. reflexivity.
  - right. vm_compute. reflexivity.
Defined.

(** Witness of [record_without_ocr_text]. *)
Lemma record_without_ocr_text_witness :
  context_text Json.loads bare_photo = Ok image_placeholder
  ∧ scoring_text Json.loads bare_photo = Ok "".
Proof.
  apply (record_without_ocr_text Json.loads bare_photo bare_dict).
  - vm_compute. reflexivity.
  - vm_compute. reflexivity.
Defined.

(** C3, as stated, fails in the ranker.  The stored content [bare_record]
    decodes to a record without [ocr_text]; the text that the ranker takes
    from it is the empty string, not the placeholder. *)
Lemma ranker_text_without_ocr_text_is_empty :
  Json.loads bare_record = Ok (Some (PDict bare_dict))
  ∧ bare_dict !! "ocr_text" = None
  ∧ scoring_text Json.loads bare_photo = Ok ""
  ∧ scoring_text Json.loads bare_photo ≠ Ok image_placeholder
  ∧ scoring_text Json.loads bare_photo ≠ Ok (lower image_placeholder).
Proof. split_and!; by vm_compute. Qed.

End RankerSamples.

(** ** The context assembler and the pipeline *)

Section PipelineFacts.
Import Str QueryEngine.

Variable json_loads : string → result (option pyobj).
Variable generate_content : string → backend_result.

Lemma lower_nonempty (s : string) : lower s ≠ "" → s ≠ "".
Proof. by intros Hs ->. Qed.

(** The text that the assembler shows for a content, once it is read. *)
Lemma context_text_shown (c : chunk) (value : pyobj) :
  reads_as json_loads (default (PStr "") (content c)) value →
  context_text json_loads c = Ok (shown_text value).
Proof.
  intros Hdecoded%reads_as_decoded. unfold context_text. rewrite Hdecoded. cbn [bind].
  destruct value as [s|d|repr]; [done| |done].
  cbn [shown_text]. by destruct (d !! "ocr_text").
Qed.

(** A chunk of positive score is read without an exception, and the text
    that the assembler shows for it is not empty and is the text that the
    ranker scored, before it was lower-cased. *)
Lemma relevant_chunk_text (all_chunks relevant : list chunk) (query : string)
    (limit : Z) (c : chunk) :
  _get_relevant_chunks json_loads all_chunks query limit = Ok relevant →
  c ∈ relevant →
  ∃ value,
    reads_as json_loads (default (PStr "") (content c)) value
    ∧ shown_text value ≠ ""
    ∧ scoring_text json_loads c = Ok (lower (shown_text value)).
Proof.
  intros Hrank Hin.
  destruct (relevant_chunk_scores _ _ _ _ _ _ Hrank Hin) as (_ & n & Hn & Hpos).
  unfold chunk_score in Hn.
  destruct (scoring_text json_loads c) as [t|] eqn:Ht; [|done].
  injection Hn as <-.
  assert (Hne : t ≠ "").
  { intros ->. rewrite score_of_empty_text in Hpos. lia. }
  revert Ht. unfold scoring_text.
  destruct (decoded json_loads (default (PStr "") (content c))) as [value|] eqn:Hvalue;
    [|done].
  apply reads_as_decoded in Hvalue. cbn [bind]. intros Ht. exists value.
  split; [done|]. clear Hvalue. revert Ht.
  destruct value as [s|d|repr]; cbn [shown_text str_of].
  - intros [= <-]. split; [by apply lower_nonempty|done].
  - destruct (d !! "ocr_text") as [[s|? ? ?]|]; cbn [default from_option id]; [|done|].
    + intros [= <-]. apply lower_nonempty in Hne. cbn.
      destruct s; [done|]. by split.
    + intros [= <-]. done.
  - intros [= <-]. split; [by apply lower_nonempty|done].
Qed.


(** The loop of the assembler on chunks that are read without exception. *)
Lemma context_parts_blocks (chunks : list chunk) (values : list pyobj) :
  Forall2 (λ c value, reads_as json_loads (default (PStr "") (content c)) value)
          chunks values →
  context_parts json_loads chunks
  = Ok (zip_with (λ c value, block (default "Unknown" (filename c)) (shown_text value))
                 chunks values).
Proof.
  induction 1 as [|c value chunks values Hc _ IH]; [done|].
  cbn [context_parts zip_with]. unfold context_part.
  rewrite (context_text_shown c value Hc). cbn [bind]. by rewrite IH.
Qed.

(** The chunks that the ranker returns are read without exception. *)
Lemma relevant_chunks_read (all_chunks relevant : list chunk) (query : string)
    (limit : Z) :
  _get_relevant_chunks json_loads all_chunks query limit = Ok relevant →
  ∃ values,
    Forall2 (λ c value, reads_as json_loads (default (PStr "") (content c)) value)
            relevant values
    ∧ Forall (λ value, shown_text value ≠ "") values.
Proof.
  intros Hrank.
  assert (Forall (λ c, ∃ value,
                    reads_as json_loads (default (PStr "") (content c)) value
                    ∧ shown_text value ≠ "") relevant) as Hall.
  { apply Forall_forall. intros c Hc.
    destruct (relevant_chunk_text _ _ _ _ _ Hrank Hc) as (value & ? & ? & _). eauto. }
  clear Hrank. induction Hall as [|c relevant (value & Hc & Hne) _ (values & IH & IHne)].
  - by exists [].
  - exists (value :: values). split; by constructor.
Qed.

Lemma relevant_chunks_have_context (all_chunks relevant : list chunk) (query : string)
    (limit : Z) :
  _get_relevant_chunks json_loads all_chunks query limit = Ok relevant →
  ∃ context, _prepare_context json_loads relevant = Ok context.
Proof.
  intros (values & Hvalues & _)%relevant_chunks_read.
  unfold _prepare_context. rewrite (context_parts_blocks _ _ Hvalues). by eexists.
Qed.

Lemma on_api_error_cases (error_msg : string) :
  (contains "404" error_msg || contains "not found" (lower error_msg) = true →
     on_api_error error_msg = model_error error_msg)
  ∧ (contains "404" error_msg || contains "not found" (lower error_msg) = false →
     contains "403" error_msg || contains "permission" (lower error_msg) = true →
     on_api_error error_msg = api_key_error error_msg)
  ∧ (contains "404" error_msg || contains "not found" (lower error_msg) = false →
     contains "403" error_msg || contains "permission" (lower error_msg) = false →
     on_api_error error_msg = api_error error_msg).
Proof.
  unfold on_api_error. split_and!; [by intros ->|by intros -> ->|by intros -> ->].
Qed.

End PipelineFacts.

Section PipelineClaims.
Import Str QueryEngine.

Variable json_loads : string → result (option pyobj).
Variable generate_content : string → backend_result.

(** C7.  When the ranker, asked for 10 chunks, returns none, [query]
    returns the fixed message about missing information and sends no
    prompt to the backend; the message is not the empty string and is none
    of the error messages; and this is what happens on the empty store. *)
Theorem no_relevant_chunks_no_backend_call (all_chunks : list chunk)
    (user_query : string) :
  _get_relevant_chunks json_loads all_chunks user_query 10 = Ok [] →
  query json_loads generate_content all_chunks user_query
  = {| answer := no_information; prompts := [] |}
  ∧ no_information ≠ ""
  ∧ (∀ msg, no_information ≠ on_error msg ∧ no_information ≠ on_api_error msg)
  ∧ query json_loads generate_content [] user_query
    = {| answer := no_information; prompts := [] |}.
Proof.
  intros Hrank. split_and!.
  - unfold query. by rewrite Hrank.
  - done.
  - intros msg. split.
    + unfold on_error. by case_match.
    + unfold on_api_error. by repeat case_match.
  - done.
Qed.

(** C6, as amended.  When retrieval finds chunks, the assembler returns a
    context for them; and when the backend fails on the prompt with that
    context, [query] returns a string made from [str(api_error)]: the
    message on the unavailable model when the error holds [404] or, in any
    case of letters, [not found]; otherwise the message on the API key
    when it holds [403] or [permission]; otherwise the general message.
    The message on the API key is never the message on the model. *)
Theorem backend_failure_is_classified (all_chunks relevant : list chunk)
    (user_query error_msg : string) :
  _get_relevant_chunks json_loads all_chunks user_query 10 = Ok relevant →
  relevant ≠ [] →
  ∃ context,
    _prepare_context json_loads relevant = Ok context
    ∧ (generate_content (prompt_of context user_query) = Failed error_msg →
       (contains "404" error_msg || contains "not found" (lower error_msg) = true →
          answer (query json_loads generate_content all_chunks user_query)
          = model_error error_msg)
       ∧ (contains "404" error_msg || contains "not found" (lower error_msg) = false →
          contains "403" error_msg || contains "permission" (lower error_msg) = true →
          answer (query json_loads generate_content all_chunks user_query)
          = api_key_error error_msg)
       ∧ (contains "404" error_msg || contains "not found" (lower error_msg) = false →
          contains "403" error_msg || contains "permission" (lower error_msg) = false →
          answer (query json_loads generate_content all_chunks user_query)
          = api_error error_msg))
    ∧ (∀ e1 e2, api_key_error e1 ≠ model_error e2).
Proof.
  intros Hrank Hne.
  destruct (relevant_chunks_have_context _ _ _ _ _ Hrank) as (context & Hcontext).
  exists context. split_and!; [done| |done].
  intros Hfail.
  assert (Hanswer : answer (query json_loads generate_content all_chunks user_query)
                    = on_api_error error_msg).
  { unfold query. rewrite Hrank. destruct relevant as [|c rest]; [done|].
    rewrite Hcontext. cbn [answer]. by rewrite Hfail. }
  rewrite Hanswer. destruct (on_api_error_cases error_msg) as (H404 & H403 & Hother).
  split_and!; done.
Qed.


End PipelineClaims.

Section PipelineSamples.
Import Str QueryEngine Samples.

(** Witness of [no_relevant_chunks_no_backend_call]: a word that no chunk
    of the sample store holds. *)
Lemma no_relevant_chunks_no_backend_call_witness :
  query Json.loads (failing forbidden) store "zebra"
  = {| answer := no_information; prompts := [] |}.
Proof.
  apply (no_relevant_chunks_no_backend_call Json.loads (failing forbidden) store "zebra").
  vm_compute. reflexivity.
Defined.

(** Witness of [backend_failure_is_classified]: an error with [403] and
    without [404] or [not found]. *)
Lemma backend_failure_is_classified_witness :
  answer (query Json.loads (failing forbidden) store question) = api_key_error forbidden.
Proof.
  destruct (backend_failure_is_classified Json.loads (failing forbidden)
              store [geo; tour; notes; photo] question forbidden
              ltac:(vm_compute; reflexivity) ltac:(discriminate))
    as (context & _ & Hclassified & _).
  apply (proj1 (proj2 (Hclassified eq_refl))).
  - vm_compute. reflexivity.
  - vm_compute. reflexivity.
Defined.

(** C6, as stated, fails when the error holds both marks.  The error
    [403 Forbidden: model not found] holds [403], and [query] returns the
    message on the unavailable model, which is not the message on the API
    key. *)
Lemma forbidden_not_found_is_model_error :
  contains "403" forbidden_not_found = true
  ∧ _get_relevant_chunks Json.loads store question 10 = Ok [geo; tour; notes; photo]
  ∧ answer (query Json.loads (failing forbidden_not_found) store question)
    = model_error forbidden_not_found
  ∧ answer (query Json.loads (failing forbidden_not_found) store question)
    ≠ api_key_error forbidden_not_found.
Proof. split_and!; by vm_compute. Qed.



(** The assembler on a chunk that the ranker never returns: the text of an
    empty file is shown empty, without the placeholder. *)
Example empty_text_is_shown_empty :
  _prepare_context Json.loads [empty_file] = Ok (block "empty.txt" "").
Proof. by vm_compute. Qed.

(** A stored text that decodes to a record whose [ocr_text] is not a
    string makes the ranker raise, whatever the query is; [query] turns
    the exception into its message. *)
Example non_string_ocr_text_raises :
  _get_relevant_chunks Json.loads [geo; odd_file] "" 10
  = Raise "'int' object has no attribute 'lower'"
  ∧ answer (query Json.loads (failing forbidden) [geo; odd_file] question)
    = on_error "'int' object has no attribute 'lower'".
Proof. split; by vm_compute. Qed.

(** A negative [limit] drops chunks from the end of the ranking instead of
    keeping that many. *)
Example negative_limit_drops_from_the_end :
  _get_relevant_chunks Json.loads store question (-1) = Ok [geo; tour; notes].
Proof. by vm_compute. Qed.

End PipelineSamples.

(** * Further properties *)

(** ** The text segmenter: blank input, bounds, numbering *)

Section SegmenterMore.
Import Str TextProcessor SegmenterInvariants.
Local Open Scope Z_scope.

Lemma substring_empty (n : nat) (s : string) : String.substring n 0 s = "".
Proof. revert n. induction s as [|c s IH]; intros [|n]; cbn; auto. Qed.

Lemma length_substring_le (n m : nat) (s : string) :
  (String.length (String.substring n m s) ≤ m)%nat.
Proof.
  revert n m. induction s as [|c s IH]; intros [|n] [|m]; cbn; try lia.
  - specialize (IH 0%nat m). lia.
  - apply IH.
  - apply IH.
Qed.

Lemma length_lstrip_le (s : string) : (String.length (lstrip s) ≤ String.length s)%nat.
Proof. induction s as [|c s IH]; cbn; [lia|]. destruct (isspace c); cbn; lia. Qed.

Lemma length_rstrip_le (s : string) : (String.length (rstrip s) ≤ String.length s)%nat.
Proof.
  induction s as [|c s IH]; cbn; [lia|].
  destruct (rstrip s) eqn:Hr; [destruct (isspace c)|]; cbn in *; lia.
Qed.

Lemma length_strip_le (s : string) : (String.length (strip s) ≤ String.length s)%nat.
Proof.
  unfold strip. pose proof (length_rstrip_le (lstrip s)). pose proof (length_lstrip_le s). lia.
Qed.

(** A slice from a position inside the sequence is no longer than the
    distance of its bounds. *)
Lemma length_slice_le (s : string) (i j : Z) :
  0 ≤ i ≤ j → Z.of_nat (String.length (slice s i j)) ≤ j - i.
Proof.
  intros Hij. unfold slice.
  pose proof (length_substring_le (Z.to_nat (adjust (len s) i))
                (Z.to_nat (adjust (len s) j - adjust (len s) i)) s) as Hle.
  assert (adjust (len s) j - adjust (len s) i ≤ j - i).
  { unfold adjust, len. repeat case_match; lia. }
  lia.
Qed.

Lemma rfind_lower_bound (s : string) (c : ascii) (i j : Z) : -1 ≤ rfind s c i j.
Proof.
  unfold rfind.
  pose proof (rfind_from_spec c s (Z.to_nat (adjust (len s) i))
                (Z.to_nat (adjust (len s) j - adjust (len s) i))) as Hspec.
  cbn zeta in Hspec. destruct Hspec as [[-> _]|(Hr & _)]; lia.
Qed.

Lemma rfind_upper_bound (s : string) (c : ascii) (i j : Z) :
  0 ≤ i → 0 ≤ j → rfind s c i j < j.
Proof.
  intros Hi Hj. unfold rfind.
  pose proof (rfind_from_spec c s (Z.to_nat (adjust (len s) i))
                (Z.to_nat (adjust (len s) j - adjust (len s) i))) as Hspec.
  cbn zeta in Hspec. destruct Hspec as [[-> _]|(Hr & _)]; [lia|].
  revert Hr. unfold adjust, len. repeat case_match; lia.
Qed.

(** The cut never lies beyond the window. *)
Lemma chunk_end_le (text : string) (chunk_size start : Z) :
  0 ≤ start → 0 ≤ chunk_size →
  start ≤ chunk_end text chunk_size start ≤ start + chunk_size.
Proof.
  intros Hstart Hsize. unfold chunk_end.
  destruct (start + chunk_size <? len text); [|lia].
  destruct (sentence_end text start (start + chunk_size) >? start) eqn:Hgt; [|lia].
  unfold sentence_end in *.
  pose proof (rfind_upper_bound text "." start (start + chunk_size)).
  pose proof (rfind_upper_bound text "!" start (start + chunk_size)).
  pose proof (rfind_upper_bound text "?" start (start + chunk_size)).
  pose proof (rfind_upper_bound text "010" start (start + chunk_size)).
  lia.
Qed.

Lemma loop_keeps_slices (text : string) (chunk_size overlap : Z) (fuel : nat)
    (st st' : loop_state) :
  0 ≤ start st →
  Forall (holds_its_slice text) (chunks st) →
  loop fuel text chunk_size overlap st = Some st' →
  Forall (holds_its_slice text) (chunks st').
Proof.
  revert st. induction fuel as [|fuel IH]; intros st Hstart Hinv; cbn [loop].
  - case_match; [done|]. by intros [= <-].
  - destruct (start st <? len text) eqn:Hlt; [|by intros [= <-]].
    apply IH.
    + pose proof (loop_body_advances text chunk_size overlap st). lia.
    + cbn. destruct (negb _) eqn:Hemitted; [|done].
      apply Forall_app. split; [done|].
      apply Forall_singleton. intros sp [= <-]. cbn. split_and!; [done| |done|lia].
      apply negb_true_iff, String.eqb_neq in Hemitted. done.
Qed.

Lemma loop_body_keeps_invariant (text : string) (chunk_size overlap : Z)
    (st : loop_state) :
  loop_invariant st → loop_invariant (loop_body text chunk_size overlap st).
Proof.
  intros (Hlen & (Hidx & Hinc) & Hbefore).
  pose proof (loop_body_advances text chunk_size overlap st) as Hadv.
  assert (Hbefore' : Forall (λ p, ∃ sp, metadata p = Some sp
                       ∧ start_pos sp < start (loop_body text chunk_size overlap st))
                     (chunks st)).
  { eapply Forall_impl; [exact Hbefore|]. intros p (sp & ? & ?). exists sp. split; [done|lia]. }
  unfold loop_invariant, numbered. cbn [loop_body chunks next_index start] in *.
  destruct (negb _); [|by split_and!].
  split_and!.
  - rewrite length_app. cbn. lia.
  - intros k p sp Hk Hsp.
    apply lookup_app_Some in Hk as [Hk|[Hge Hk]]; [by eapply Hidx|].
    apply list_lookup_singleton_Some in Hk as [Hk <-]. cbn in Hsp.
    injection Hsp as <-. cbn. lia.
  - intros i j pi pj si sj Hij Hi Hj Hsi Hsj.
    pose proof (lookup_lt_Some _ _ _ Hi) as Hilt. rewrite length_app in Hilt. cbn in Hilt.
    apply lookup_app_Some in Hj as [Hj|[Hge Hj]].
    + apply lookup_app_Some in Hi as [Hi|[Hge' _]].
      * by eapply (Hinc i j).
      * apply lookup_lt_Some in Hj. lia.
    + apply list_lookup_singleton_Some in Hj as [Hj <-]. cbn in Hsj.
      injection Hsj as <-. cbn.
      apply lookup_app_Some in Hi as [Hi|[Hge' _]]; [|lia].
      rewrite Forall_forall in Hbefore.
      destruct (Hbefore pi) as (sp & Hsp & Hlt); [by eapply list_elem_of_lookup_2|].
      rewrite Hsi in Hsp. injection Hsp as <-. done.
  - apply Forall_app. split; [done|]. apply Forall_singleton. cbn. eexists. split; [done|].
    cbn. lia.
Qed.

Lemma loop_keeps_invariant (text : string) (chunk_size overlap : Z) (fuel : nat)
    (st st' : loop_state) :
  loop_invariant st →
  loop fuel text chunk_size overlap st = Some st' →
  loop_invariant st'.
Proof.
  revert st. induction fuel as [|fuel IH]; intros st Hinv; cbn [loop].
  - case_match; [done|]. by intros [= <-].
  - case_match; [|by intros [= <-]]. apply IH. by apply loop_body_keeps_invariant.
Qed.

Lemma initial_invariant : loop_invariant initial.
Proof.
  split_and!; [done| |by constructor]. split.
  - by intros k p sp Hk.
  - by intros i j pi pj si sj _ Hi.
Qed.

(** What [_split_text] returns is the blank chunk, the chunks of the final
    state of the loop, or the whole cleaned text. *)
Lemma split_text_cases (text : string) (chunk_size overlap : Z) (pieces : list piece) :
  _split_text text chunk_size overlap = Some pieces →
  pieces = [ {| content := ""; metadata := None |} ]
  ∨ pieces = [ {| content := clean text; metadata := None |} ]
  ∨ ∃ st', loop (String.length (clean text)) (clean text) chunk_size overlap initial
           = Some st' ∧ pieces = chunks st' ∧ chunks st' ≠ [].
Proof.
  unfold _split_text, split_text_within.
  destruct (String.eqb text "" || String.eqb (strip text) ""); [intros [= <-]; by left|].
  destruct (loop _ _ _ _ _) as [st'|] eqn:Hloop; [|done]. cbn.
  destruct (chunks st') as [|p0 ps] eqn:Hchunks; intros [= <-].
  - right. by left.
  - right. right. exists st'. by rewrite Hchunks.
Qed.

Lemma split_text_nonempty (text : string) (chunk_size overlap : Z) (pieces : list piece) :
  _split_text text chunk_size overlap = Some pieces → pieces ≠ [].
Proof.
  intros Hsplit.
  by destruct (split_text_cases _ _ _ _ Hsplit) as [->|[->|(st' & _ & -> & Hne)]].
Qed.

End SegmenterMore.

Section SegmenterExtras.
Import Str TextProcessor SegmenterInvariants.
Local Open Scope Z_scope.

Lemma only_nil (P : ascii → Prop) : only P "".
Proof. by intros k c. Qed.

Lemma only_cons (P : ascii → Prop) (c : ascii) (s : string) :
  only P (String c s) ↔ P c ∧ only P s.
Proof.
  split.
  - intros H. split; [by apply (H 0%nat)|]. intros k a Hk. by apply (H (S k)).
  - intros [Hc Hs] [|k] a; cbn; [by intros [= <-]|apply Hs].
Qed.

Lemma only_lstrip (P : ascii → Prop) (s : string) : only P s → only P (lstrip s).
Proof.
  induction s as [|c s IH]; [done|]. cbn. intros Hs.
  destruct (isspace c); [|done]. apply IH. by apply only_cons in Hs as [_ ?].
Qed.

Lemma only_rstrip (P : ascii → Prop) (s : string) : only P s → only P (rstrip s).
Proof.
  induction s as [|c s IH]; [done|]. cbn. intros [Hc Hs]%only_cons.
  specialize (IH Hs). destruct (rstrip s) as [|c' r].
  - destruct (isspace c); [apply only_nil|]. apply only_cons. split; [done|apply only_nil].
  - by apply only_cons.
Qed.

Lemma only_sub_spaces (in_run : bool) (s : string) :
  only blank_if_space (sub_spaces in_run s).
Proof.
  revert in_run. induction s as [|c s IH]; intros in_run; cbn; [apply only_nil|].
  destruct (isspace c) eqn:Hc.
  - destruct in_run; [apply IH|]. apply only_cons. split; [done|apply IH].
  - apply only_cons. split; [|apply IH]. intros ?. congruence.
Qed.

(** A text is blank exactly when all its characters are white space, and
    cleaning keeps that. *)
Lemma rstrip_empty (s : string) : rstrip s = "" ↔ only (λ c, isspace c = true) s.
Proof.
  induction s as [|c s IH]; [split; [intros _; apply only_nil|done]|].
  rewrite only_cons, <-IH. cbn [rstrip].
  destruct (rstrip s) as [|c' r]; [|split; [done|by intros [_ ?]]].
  destruct (isspace c); [done|]. split; [done|by intros [? _]].
Qed.

Lemma lstrip_blank (s : string) :
  only (λ c, isspace c = true) (lstrip s) ↔ only (λ c, isspace c = true) s.
Proof.
  induction s as [|c s IH]; [done|]. cbn [lstrip].
  destruct (isspace c) eqn:Hc; [|done]. rewrite only_cons, IH. tauto.
Qed.

Lemma strip_empty (s : string) : strip s = "" ↔ only (λ c, isspace c = true) s.
Proof. unfold strip. by rewrite rstrip_empty, lstrip_blank. Qed.

Lemma sub_spaces_blank (in_run : bool) (s : string) :
  only (λ c, isspace c = true) (sub_spaces in_run s) ↔ only (λ c, isspace c = true) s.
Proof.
  revert in_run. induction s as [|c s IH]; intros in_run; [done|]. cbn [sub_spaces].
  destruct (isspace c) eqn:Hc.
  - destruct in_run; rewrite ?only_cons, IH, ?only_cons; tauto.
  - rewrite !only_cons, IH. tauto.
Qed.

Lemma clean_empty (text : string) : clean text = "" ↔ strip text = "".
Proof. unfold clean. by rewrite !strip_empty, sub_spaces_blank. Qed.

(** X1.  A text that is empty or holds white space only gives exactly one
    chunk, with empty content and empty metadata, whatever the sizes; and
    a chunk with empty content is returned for such a text only: every
    chunk of a text that is not blank has a content that is not empty, the
    fall-back chunk too. *)
Theorem split_text_blank (text : string) (chunk_size overlap : Z) (pieces : list piece) :
  _split_text text chunk_size overlap = Some pieces →
  (strip text = "" → pieces = [ {| content := ""; metadata := None |} ])
  ∧ (strip text ≠ "" → Forall (λ p, content p ≠ "") pieces).
Proof.
  intros Hsplit. split.
  - intros Hblank. revert Hsplit. unfold _split_text, split_text_within.
    rewrite Hblank. cbn. rewrite orb_true_r. by intros [= <-].
  - intros Hink. revert Hsplit. unfold _split_text, split_text_within.
    assert (text ≠ "") as Htext by (by intros ->).
    apply String.eqb_neq in Htext as ->. pose proof Hink as Hink'.
    apply String.eqb_neq in Hink' as ->. cbn [orb].
    destruct (loop _ _ _ _ _) as [st'|] eqn:Hloop; [|done]. cbn.
    destruct (chunks st') as [|p0 ps] eqn:Hchunks; intros [= <-].
    + apply Forall_singleton. cbn. by rewrite clean_empty.
    + rewrite <-Hchunks.
      pose proof (loop_keeps_invariant _ _ _ _ _ _ initial_invariant Hloop)
        as (_ & _ & Hsome).
      assert (Forall (holds_its_slice (clean text)) (chunks st')) as Hslices.
      { eapply (loop_keeps_slices (clean text) chunk_size overlap _ initial st');
          [cbn; lia|by constructor|exact Hloop]. }
      rewrite Forall_forall in Hsome, Hslices |- *. intros p Hp.
      destruct (Hsome p Hp) as (sp & Hsp & _).
      by destruct (Hslices p Hp sp Hsp) as (_ & ? & _).
Qed.

Lemma split_text_blank_witness :
  _split_text (String " " (String "010" (String "009" ""))) 1000 200
  = Some [ {| content := ""; metadata := None |} ]
  ∧ Forall (λ p, content p ≠ "")
      [ {| content := "Hi."; metadata := Some {| chunk_index := 0; start_pos := 0;
                                                 end_pos := 3 |} |} ].
Proof.
  split.
  - by vm_compute.
  - apply (proj2 (split_text_blank " Hi. " 3 0 _ ltac:(by vm_compute))). by vm_compute.
Defined.

(** X2.  [_split_text] never returns the empty list, and only the chunks
    cut by the loop carry positions: the chunk of a blank text and the
    fall-back chunk have empty metadata. *)
Theorem split_text_never_empty (text : string) (chunk_size overlap : Z)
    (pieces : list piece) :
  _split_text text chunk_size overlap = Some pieces →
  pieces ≠ []
  ∧ (Forall (λ p, metadata p = None) pieces → length pieces = 1%nat).
Proof.
  intros Hsplit.
  destruct (split_text_cases _ _ _ _ Hsplit) as [->|[->|(st' & Hloop & -> & Hne)]];
    [done|done|].
  split; [done|]. intros Hnone.
  pose proof (loop_keeps_invariant _ _ _ _ _ _ initial_invariant Hloop) as (_ & _ & Hsome).
  destruct (chunks st') as [|p ps]; [done|].
  apply Forall_cons in Hnone as [Hnone _]. apply Forall_cons in Hsome as [(sp & Hsp & _) _].
  congruence.
Qed.

Lemma split_text_never_empty_witness :
  [ {| content := "Hi. Bye";
       metadata := Some {| chunk_index := 0; start_pos := 0; end_pos := 1000 |} |} ] ≠ [].
Proof.
  apply (proj1 (split_text_never_empty "Hi. Bye" 1000 200 _ ltac:(vm_compute; reflexivity))).
Defined.

(** X3.  With a chunk size that is not negative, every chunk that the
    loop emits is the stripped slice of the cleaned text between its two
    positions, is not empty, starts inside the text, and has at most
    [chunk_size] characters. *)
Theorem emitted_chunk_is_bounded_slice (text : string) (chunk_size overlap : Z)
    (pieces : list piece) (p : piece) (sp : span) :
  0 ≤ chunk_size →
  _split_text text chunk_size overlap = Some pieces →
  p ∈ pieces →
  metadata p = Some sp →
  content p = strip (slice (clean text) (start_pos sp) (end_pos sp))
  ∧ content p ≠ ""
  ∧ 0 ≤ start_pos sp < len (clean text)
  ∧ start_pos sp < end_pos sp ≤ start_pos sp + chunk_size
  ∧ Z.of_nat (String.length (content p)) ≤ chunk_size.
Proof.
  intros Hsize Hsplit Hp Hmeta.
  destruct (split_text_cases _ _ _ _ Hsplit) as [->|[->|(st' & Hloop & -> & Hne)]].
  - apply list_elem_of_singleton in Hp as ->. done.
  - apply list_elem_of_singleton in Hp as ->. done.
  - assert (Hslice : Forall (holds_its_slice (clean text)) (chunks st')).
    { eapply loop_keeps_slices; [| |exact Hloop]; [done|by constructor]. }
    assert (Hcut : Forall (cut_at_chunk_end (clean text) chunk_size) (chunks st')).
    { eapply loop_keeps_cut; [| |exact Hloop]; [done|by constructor]. }
    rewrite Forall_forall in Hslice, Hcut.
    destruct (Hslice p Hp sp Hmeta) as (Hcontent & Hnonempty & Hstart).
    destruct (Hcut p Hp sp Hmeta) as (_ & Hend).
    pose proof (chunk_end_le (clean text) chunk_size (start_pos sp)) as Hle.
    rewrite <-Hend in Hle. specialize (Hle ltac:(lia) Hsize).
    assert (Hlen : Z.of_nat (String.length (content p)) ≤ end_pos sp - start_pos sp).
    { rewrite Hcontent.
      pose proof (length_strip_le (slice (clean text) (start_pos sp) (end_pos sp))).
      pose proof (length_slice_le (clean text) (start_pos sp) (end_pos sp)). lia. }
    split_and!; try done; try lia.
    destruct (decide (start_pos sp = end_pos sp)) as [Heq|]; [|lia].
    destruct (content p) eqn:Hc; [done|]. cbn in Hlen. lia.
Qed.

Lemma emitted_chunk_is_bounded_slice_witness :
  "ne. Two!" = strip (slice (clean "One. Two!  Three? Four") 1 9)
  ∧ "ne. Two!" ≠ ""
  ∧ 0 ≤ 1 < len (clean "One. Two!  Three? Four")
  ∧ 1 < 9 ≤ 1 + 8
  ∧ Z.of_nat (String.length "ne. Two!") ≤ 8.
Proof.
  apply (emitted_chunk_is_bounded_slice "One. Two!  Three? Four" 8 3
           (default [] (_split_text "One. Two!  Three? Four" 8 3))
           {| content := "ne. Two!";
              metadata := Some {| chunk_index := 1; start_pos := 1; end_pos := 9 |} |}
           {| chunk_index := 1; start_pos := 1; end_pos := 9 |}).
  - lia.
  - vm_compute. reflexivity.
  - vm_compute. apply list_elem_of_further, list_elem_of_here.
  - reflexivity.
Defined.

(** X4.  The chunks that carry positions are numbered 0, 1, 2, ... in the
    order of the returned list, and each starts strictly after the one
    before it. *)
Theorem split_text_numbered (text : string) (chunk_size overlap : Z)
    (pieces : list piece) :
  _split_text text chunk_size overlap = Some pieces →
  numbered pieces.
Proof.
  intros Hsplit.
  destruct (split_text_cases _ _ _ _ Hsplit) as [->|[->|(st' & Hloop & -> & Hne)]].
  - split.
    + intros [|k] p sp Hk Hsp; [|done]. injection Hk as <-. done.
    + intros [|i] [|j] pi pj si sj Hij Hi Hj Hsi; try done. injection Hi as <-. done.
  - split.
    + intros [|k] p sp Hk Hsp; [|done]. injection Hk as <-. done.
    + intros [|i] [|j] pi pj si sj Hij Hi Hj Hsi; try done. injection Hi as <-. done.
  - by pose proof (loop_keeps_invariant _ _ _ _ _ _ initial_invariant Hloop) as (_ & ? & _).
Qed.

Lemma split_text_numbered_witness :
  numbered (default [] (_split_text "One. Two!  Three? Four" 8 3)).
Proof.
  apply (split_text_numbered "One. Two!  Three? Four" 8 3). vm_compute. reflexivity.
Defined.

Lemma rfind_absent (s : string) (c : ascii) (i j : Z) :
  (∀ k, String.get k s ≠ Some c) → rfind s c i j = -1.
Proof.
  intros Hno. unfold rfind.
  pose proof (rfind_from_spec c s (Z.to_nat (adjust (len s) i))
                (Z.to_nat (adjust (len s) j - adjust (len s) i))) as Hspec.
  cbn zeta in Hspec. destruct Hspec as [[-> _]|(_ & Hget & _)]; [done|].
  by apply Hno in Hget.
Qed.

(** After a white-space character, [sub_spaces] writes no blank before
    the next character that is not white space. *)
Lemma sub_spaces_in_run_start (s : string) :
  String.get 0 (sub_spaces true s) ≠ Some " "%char.
Proof.
  induction s as [|c s IH]; [done|]. cbn [sub_spaces].
  destruct (isspace c) eqn:Hc; [done|]. cbn. by intros [= ->].
Qed.

Lemma single_blanks_sub_spaces (in_run : bool) (s : string) :
  single_blanks (sub_spaces in_run s).
Proof.
  revert in_run. induction s as [|c s IH]; intros in_run; [by intros k|].
  cbn [sub_spaces]. destruct (isspace c) eqn:Hc.
  - destruct in_run; [apply IH|]. intros [|k]; cbn.
    + intros _. apply sub_spaces_in_run_start.
    + apply IH.
  - intros [|k]; cbn.
    + by intros [= ->].
    + apply IH.
Qed.

Lemma single_blanks_tail (c : ascii) (s : string) :
  single_blanks (String c s) → single_blanks s.
Proof. intros Hs k. apply (Hs (S k)). Qed.

Lemma single_blanks_lstrip (s : string) : single_blanks s → single_blanks (lstrip s).
Proof.
  induction s as [|c s IH]; [done|]. cbn [lstrip]. intros Hs.
  destruct (isspace c); [|done]. by eapply IH, single_blanks_tail.
Qed.

(** [rstrip] keeps a beginning of the string. *)
Lemma get_rstrip (s : string) (k : nat) (a : ascii) :
  String.get k (rstrip s) = Some a → String.get k s = Some a.
Proof.
  revert k. induction s as [|c s IH]; intros k; [done|]. cbn [rstrip].
  destruct (rstrip s) as [|c' r].
  - destruct (isspace c); [done|]. by destruct k as [|[|k]].
  - destruct k as [|k]; [done|]. cbn. apply IH.
Qed.

Lemma single_blanks_rstrip (s : string) : single_blanks s → single_blanks (rstrip s).
Proof.
  intros Hs k Hk%get_rstrip Hnext%get_rstrip. by apply (Hs k).
Qed.

(** X5.  The cleaned text holds no white space but single blanks: every
    white-space character of it is a blank, and no two blanks stand side
    by side.  In particular it holds no line feed, so the search for a
    line feed never finds one and the sentence ending is decided by [.],
    [!] and [?] alone. *)
Theorem clean_text_has_no_line_feed (text : string) :
  only blank_if_space (clean text)
  ∧ single_blanks (clean text)
  ∧ (∀ i j, rfind (clean text) "010" i j = -1)
  ∧ (∀ start end_,
       sentence_end (clean text) start end_
       = Z.max (Z.max (rfind (clean text) "." start end_)
                      (rfind (clean text) "!" start end_))
               (rfind (clean text) "?" start end_)).
Proof.
  assert (Honly : only blank_if_space (clean text)).
  { unfold clean, strip. apply only_rstrip, only_lstrip, only_sub_spaces. }
  assert (Hnone : ∀ i j, rfind (clean text) "010" i j = -1).
  { intros i j. apply rfind_absent. intros k Hk.
    by specialize (Honly k _ Hk ltac:(reflexivity)). }
  split_and!; [done| |done|].
  - unfold clean, strip.
    apply single_blanks_rstrip, single_blanks_lstrip, single_blanks_sub_spaces.
  - intros start end_. unfold sentence_end. rewrite Hnone.
    pose proof (rfind_lower_bound (clean text) "." start end_). lia.
Qed.

Lemma chunk_end_zero (text : string) (start : Z) :
  0 ≤ start → chunk_end text 0 start = start.
Proof.
  intros Hstart. pose proof (chunk_end_le text 0 start Hstart ltac:(lia)). lia.
Qed.

Lemma loop_zero_emits_nothing (text : string) (overlap : Z) (fuel : nat)
    (st st' : loop_state) :
  0 ≤ start st → chunks st = [] →
  loop fuel text 0 overlap st = Some st' → chunks st' = [].
Proof.
  revert st. induction fuel as [|fuel IH]; intros st Hstart Hnone; cbn [loop].
  - case_match; [done|]. by intros [= <-].
  - case_match; [|by intros [= <-]]. apply IH.
    + pose proof (loop_body_advances text 0 overlap st). lia.
    + cbn [loop_body chunks]. rewrite chunk_end_zero by done.
      unfold slice. rewrite Z.sub_diag. cbn [Z.to_nat]. rewrite substring_empty. done.
Qed.

(** X6.  With [chunk_size = 0] every window is empty and the loop emits
    nothing: a text that is not blank comes back whole, cleaned, as one
    chunk with empty metadata. *)
Theorem split_text_zero_size_keeps_text_whole (text : string) (overlap : Z) :
  strip text ≠ "" →
  _split_text text 0 overlap = Some [ {| content := clean text; metadata := None |} ].
Proof.
  intros Hblank. unfold _split_text, split_text_within.
  assert (String.eqb text "" || String.eqb (strip text) "" = false) as ->.
  { apply orb_false_iff. split; apply String.eqb_neq; [|done]. by intros ->. }
  destruct (loop_ends (clean text) 0 overlap (String.length (clean text)) initial)
    as (st' & Hloop & _).
  { unfold len. cbn. lia. }
  rewrite Hloop. cbn.
  assert (Hnone : chunks st' = []).
  { eapply loop_zero_emits_nothing; [| |exact Hloop]; [cbn; lia|done]. }
  by rewrite Hnone.
Qed.

Lemma split_text_zero_size_keeps_text_whole_witness :
  _split_text "One.  Two!" 0 200
  = Some [ {| content := clean "One.  Two!"; metadata := None |} ].
Proof. apply split_text_zero_size_keeps_text_whole. by vm_compute. Defined.

End SegmenterExtras.

(** ** Substrings and case *)

Section SubstringFacts.
Import Str.

Lemma append_cons (c : ascii) (a b : string) : String c a +:+ b = String c (a +:+ b).
Proof. reflexivity. Qed.

Lemma append_nil_l (b : string) : "" +:+ b = b.
Proof. reflexivity. Qed.

Lemma prefix_iff (sub s : string) :
  String.prefix sub s = true ↔ ∃ post, s = sub +:+ post.
Proof.
  revert sub. induction s as [|b s IH]; intros [|a sub]; cbn.
  - split; [by exists ""|done].
  - split; [done|]. by intros [post ?].
  - split; [by exists (String b s)|done].
  - destruct (ascii_dec a b) as [->|Hne].
    + rewrite IH. split; intros [post Hpost]; exists post.
      * by rewrite append_cons, <-Hpost.
      * rewrite append_cons in Hpost. congruence.
    + split; [done|]. intros [post Hpost]. rewrite append_cons in Hpost. congruence.
Qed.

(** [sub in s] holds exactly when [s] is some text, [sub], some text. *)
Lemma contains_iff (sub s : string) :
  contains sub s = true ↔ ∃ pre post, s = pre +:+ sub +:+ post.
Proof.
  induction s as [|c s IH]; cbn [contains].
  - rewrite orb_false_r, prefix_iff. split.
    + intros [post Hpost]. by exists "", post.
    + intros (pre & post & Heq). destruct pre; [by exists post|done].
  - rewrite orb_true_iff, prefix_iff, IH. split.
    + intros [[post Hpost]|(pre & post & Heq)].
      * by exists "", post.
      * exists (String c pre), post. by rewrite append_cons, Heq.
    + intros (pre & post & Heq). destruct pre as [|c' pre].
      * left. by exists post.
      * right. rewrite append_cons in Heq. injection Heq as -> Heq. by exists pre, post.
Qed.

Lemma append_assoc (a b c : string) : (a +:+ b) +:+ c = a +:+ b +:+ c.
Proof. induction a as [|x a IH]; [done|]. by rewrite !append_cons, IH. Qed.

Lemma append_nil_r (a : string) : a +:+ "" = a.
Proof. induction a as [|x a IH]; [done|]. by rewrite append_cons, IH. Qed.

Lemma contains_trans (a b s : string) :
  contains a b = true → contains b s = true → contains a s = true.
Proof.
  rewrite !contains_iff. intros (p1 & q1 & ->) (p2 & q2 & ->).
  exists (p2 +:+ p1), (q1 +:+ q2). by rewrite !append_assoc.
Qed.

Lemma contains_append_r (sub pre s : string) :
  contains sub s = true → contains sub (pre +:+ s) = true.
Proof.
  rewrite !contains_iff. intros (p & q & ->). exists (pre +:+ p), q.
  by rewrite !append_assoc.
Qed.

Lemma contains_append_l (sub s post : string) :
  contains sub s = true → contains sub (s +:+ post) = true.
Proof.
  rewrite !contains_iff. intros (p & q & ->). exists p, (q +:+ post).
  by rewrite !append_assoc.
Qed.

Lemma contains_refl (s : string) : contains s s = true.
Proof. apply contains_iff. exists "", "". by rewrite append_nil_l, append_nil_r. Qed.

Lemma lower_char_idemp (c : ascii) : lower_char (lower_char c) = lower_char c.
Proof. destruct c as [[] [] [] [] [] [] [] []]; reflexivity. Qed.

Lemma lower_idemp (s : string) : lower (lower s) = lower s.
Proof. induction s as [|c s IH]; cbn; [done|]. by rewrite lower_char_idemp, IH. Qed.

Lemma length_lower (s : string) : String.length (lower s) = String.length s.
Proof. induction s as [|c s IH]; cbn; congruence. Qed.

Lemma length_append (a b : string) :
  String.length (a +:+ b) = (String.length a + String.length b)%nat.
Proof. induction a as [|c a IH]; [done|]. rewrite append_cons. cbn. by rewrite IH. Qed.

Lemma substring_all (b : string) : String.substring 0 (String.length b) b = b.
Proof. induction b as [|c b IH]; cbn; [done|]. by rewrite IH. Qed.

Lemma substring_append_tail (a b : string) :
  String.substring (String.length a) (String.length b) (a +:+ b) = b.
Proof.
  induction a as [|c a IH]; [apply substring_all|]. rewrite append_cons. by cbn.
Qed.

End SubstringFacts.

(** ** File types and extractors *)

Section ExtractorFacts.
Import Str Path Config TextProcessor Extractors FileTypes.

(** Membership in a list of literals, as the cases of the list. *)
Ltac ext_cases H :=
  repeat (apply elem_of_cons in H as [->|H]); [..|by apply elem_of_nil in H].

Ltac not_ext H :=
  apply String.eqb_neq; intros ->; apply H; repeat constructor.

Lemma split_text_returns (text : string) (chunk_size overlap : Z) :
  ∃ pieces, _split_text text chunk_size overlap = Some pieces.
Proof.
  unfold _split_text, split_text_within.
  destruct (String.eqb text "" || String.eqb (strip text) ""); [by eauto|].
  destruct (loop_ends (clean text) chunk_size overlap
              (String.length (clean text)) initial) as (st' & -> & _).
  { unfold len. cbn. lia. }
  cbn. eauto.
Qed.

Lemma split_default_nonempty (text : string) : split_default text ≠ [].
Proof.
  unfold split_default.
  destruct (split_text_returns text 1000 200) as [pieces Hsplit]. rewrite Hsplit. cbn.
  by apply split_text_nonempty in Hsplit.
Qed.

(** X7.  The type that [get_file_type] gives a path and the extractor that
    the processor of that type picks agree: a text file goes to one of the
    five text extractors, an image to [process_image], audio to
    [process_audio] and video to [process_video]; no path of a known type
    ends in the chunk for an unsupported type.  A path of unknown type
    would end there in every processor. *)
Theorem file_type_routes
    (read_text pdf_text docx_text pptx_text : string → result string)
    (process_image : string → list media_chunk)
    (_audio_to_text : string → string) (ffmpeg : string → string → run_result)
    (temp_audio_path file_path : string) :
  (get_file_type file_path = "text" →
     text_process_file read_text pdf_text docx_text pptx_text file_path
     ∈ [process_pdf pdf_text file_path; process_docx docx_text file_path;
        process_pptx pptx_text file_path; process_txt read_text file_path;
        process_md read_text file_path])
  ∧ (get_file_type file_path = "image" →
       image_process_file process_image file_path = process_image file_path)
  ∧ (get_file_type file_path = "audio" →
       av_process_file _audio_to_text ffmpeg temp_audio_path file_path
       = process_audio _audio_to_text file_path)
  ∧ (get_file_type file_path = "video" →
       av_process_file _audio_to_text ffmpeg temp_audio_path file_path
       = process_video _audio_to_text ffmpeg temp_audio_path file_path)
  ∧ (get_file_type file_path = "unknown" →
       text_process_file read_text pdf_text docx_text pptx_text file_path
       = [text_chunk ("Unsupported file type: " +:+ lower (splitext file_path).2)]
       ∧ image_process_file process_image file_path
         = [ {| media_content :=
                  PDict (image_note ("Unsupported image type: "
                                     +:+ lower (splitext file_path).2));
                media_metadata := [] |} ]
       ∧ av_process_file _audio_to_text ffmpeg temp_audio_path file_path
         = [media_text ("Unsupported audio/video type: "
                        +:+ lower (splitext file_path).2) []]).
Proof.
  unfold get_file_type, text_process_file, image_process_file, av_process_file.
  set (ext := lower (splitext file_path).2).
  destruct (decide (ext ∈ ALLOWED_EXTENSIONS_text)) as [Htext|Htext].
  { rewrite (bool_decide_eq_true_2 _ Htext).
    split_and!; try done. intros _. unfold ALLOWED_EXTENSIONS_text in Htext.
    ext_cases Htext; cbn; repeat constructor. }
  rewrite (bool_decide_eq_false_2 _ Htext). unfold ALLOWED_EXTENSIONS_text in Htext.
  assert (String.eqb ext ".pdf" = false) as -> by not_ext Htext.
  assert (String.eqb ext ".docx" = false) as -> by not_ext Htext.
  assert (String.eqb ext ".pptx" = false) as -> by not_ext Htext.
  assert (String.eqb ext ".txt" = false) as -> by not_ext Htext.
  assert (String.eqb ext ".md" = false) as -> by not_ext Htext.
  destruct (decide (ext ∈ ALLOWED_EXTENSIONS_image)) as [Himage|Himage].
  { rewrite (bool_decide_eq_true_2 _ Himage).
    split_and!; try done. intros _. unfold ALLOWED_EXTENSIONS_image in Himage.
    by rewrite bool_decide_eq_true_2. }
  rewrite (bool_decide_eq_false_2 _ Himage). unfold ALLOWED_EXTENSIONS_image in Himage.
  rewrite (bool_decide_eq_false_2 (ext ∈ [".png"; ".jpg"; ".jpeg"])) by done.
  destruct (decide (ext ∈ ALLOWED_EXTENSIONS_audio)) as [Haudio|Haudio].
  { rewrite (bool_decide_eq_true_2 _ Haudio).
    split_and!; try done. intros _. unfold ALLOWED_EXTENSIONS_audio in Haudio.
    by ext_cases Haudio. }
  rewrite (bool_decide_eq_false_2 _ Haudio). unfold ALLOWED_EXTENSIONS_audio in Haudio.
  assert (String.eqb ext ".mp3" = false) as -> by not_ext Haudio.
  destruct (decide (ext ∈ ALLOWED_EXTENSIONS_video)) as [Hvideo|Hvideo].
  { rewrite (bool_decide_eq_true_2 _ Hvideo).
    split_and!; try done. intros _. unfold ALLOWED_EXTENSIONS_video in Hvideo.
    by ext_cases Hvideo. }
  rewrite (bool_decide_eq_false_2 _ Hvideo). unfold ALLOWED_EXTENSIONS_video in Hvideo.
  assert (String.eqb ext ".mp4" = false) as -> by not_ext Hvideo.
  split_and!; done.
Qed.

Lemma file_type_routes_witness :
  image_process_file (λ _, []) "scans/Page.JPEG" = []
  ∧ av_process_file (λ _, "hello") (λ _ _, CalledProcessError) "tmp.wav" "talk.mp3"
    = process_audio (λ _, "hello") "talk.mp3".
Proof.
  pose proof (file_type_routes (λ _, Ok "") (λ _, Ok "") (λ _, Ok "") (λ _, Ok "")
                (λ _, []) (λ _, "hello") (λ _ _, CalledProcessError) "tmp.wav")
    as Hroutes.
  split.
  - apply (proj1 (proj2 (Hroutes "scans/Page.JPEG"))). reflexivity.
  - apply (proj1 (proj2 (proj2 (Hroutes "talk.mp3")))). reflexivity.
Defined.

(** X8.  [process_txt] always returns at least one chunk.  A file that
    cannot be read gives the one chunk that holds the error; a file that
    is empty or blank gives the one chunk with empty content. *)
Theorem process_txt_chunks (read_text : string → result string) (file_path : string) :
  process_txt read_text file_path ≠ []
  ∧ (∀ e, read_text file_path = Raise e →
       process_txt read_text file_path = [text_chunk ("Error reading TXT: " +:+ e)])
  ∧ (∀ text, read_text file_path = Ok text → strip text = "" →
       process_txt read_text file_path = [text_chunk ""]).
Proof.
  unfold process_txt. split_and!.
  - destruct (read_text file_path); [apply split_default_nonempty|done].
  - by intros e ->.
  - intros text -> Hblank. unfold split_default, _split_text, split_text_within.
    rewrite Hblank. cbn. by rewrite orb_true_r.
Qed.

Lemma process_txt_chunks_witness :
  process_txt (λ _, Ok " ") "notes.txt" = [text_chunk ""]
  ∧ process_txt (λ _, Raise "denied") "notes.txt"
    = [text_chunk ("Error reading TXT: " +:+ "denied")].
Proof.
  split.
  - by apply (proj2 (proj2 (process_txt_chunks (λ _, Ok " ") "notes.txt")) " ").
  - by apply (proj1 (proj2 (process_txt_chunks (λ _, Raise "denied") "notes.txt")) "denied").
Defined.

Lemma append_literal_nonempty (c : ascii) (a b : string) : String c a +:+ b ≠ "".
Proof. done. Qed.

(** X9.  The audio and video processor returns exactly one chunk for every
    path, and its content is a string that is not empty: the transcript,
    or a sentence that says what went wrong. *)
Theorem av_process_file_one_chunk (_audio_to_text : string → string)
    (ffmpeg : string → string → run_result) (temp_audio_path file_path : string) :
  ∃ text metadata,
    av_process_file _audio_to_text ffmpeg temp_audio_path file_path
    = [media_text text metadata]
    ∧ text ≠ "".
Proof.
  unfold av_process_file, process_audio, process_video.
  repeat case_match; eexists _, _; (split; [reflexivity|]); try done;
    match goal with
    | H : negb (String.eqb ?t "") = true |- ?t ≠ "" =>
        by apply negb_true_iff, String.eqb_neq in H
    end.
Qed.

(** X10.  A URL counts as a YouTube link exactly when its lower-cased text
    holds [youtube.com] or [youtu.be] somewhere; the two longer domains of
    the list add nothing. *)
Theorem is_youtube_url_two_domains (url : string) :
  is_youtube_url url
  = contains "youtube.com" (lower url) || contains "youtu.be" (lower url).
Proof.
  unfold is_youtube_url. cbn [existsb]. rewrite orb_false_r.
  destruct (contains "youtube.com" (lower url)) eqn:Hcom; [done|].
  destruct (contains "youtu.be" (lower url)) eqn:Hbe; [done|]. cbn.
  destruct (contains "www.youtube.com" (lower url)) eqn:Hwww.
  { assert (contains "youtube.com" (lower url) = true)
      by (by apply (contains_trans _ "www.youtube.com"); [vm_compute|]).
    congruence. }
  destruct (contains "m.youtube.com" (lower url)) eqn:Hm; [|done].
  assert (contains "youtube.com" (lower url) = true)
    by (by apply (contains_trans _ "m.youtube.com"); [vm_compute|]).
  congruence.
Qed.

Lemma endswith_append (a b : string) : endswith (a +:+ b) b = true.
Proof.
  unfold endswith, slice, len. rewrite length_append.
  rewrite !adjust_inside by lia.
  replace (Z.to_nat (Z.of_nat (String.length a + String.length b)
                     - Z.of_nat (String.length b))) with (String.length a) by lia.
  replace (Z.to_nat (Z.of_nat (String.length a + String.length b)
                     - (Z.of_nat (String.length a + String.length b)
                        - Z.of_nat (String.length b)))) with (String.length b) by lia.
  rewrite substring_append_tail, String.eqb_refl. cbn. apply Z.leb_le. lia.
Qed.

(** X11.  The path that [_audio_to_text] hands to the recognizer always
    ends with [.wav]; a path that ends with [.wav] already is kept. *)
Theorem wav_path_ends_with_wav (audio_path : string) :
  endswith (wav_path audio_path) ".wav" = true
  ∧ (endswith audio_path ".wav" = true → wav_path audio_path = audio_path).
Proof.
  unfold wav_path. destruct (endswith audio_path ".wav") eqn:Hwav; [done|].
  split; [apply endswith_append|done].
Qed.

End ExtractorFacts.

(** ** Lists: filters, order *)

Section ListFacts.
Context {A B : Type}.

Lemma filter_fmap (f : A → B) (P : B → Prop) `{!∀ y, Decision (P y)} (l : list A) :
  filter P (f <$> l) = f <$> filter (λ x, P (f x)) l.
Proof.
  induction l as [|x l IH]; [done|].
  rewrite fmap_cons, !filter_cons. case_decide; by rewrite ?fmap_cons, IH.
Qed.

Lemma sorted_fmap_on (f : A → B) (R1 : relation A) (R2 : relation B) (l : list A) :
  (∀ x y, x ∈ l → y ∈ l → R1 x y → R2 (f x) (f y)) →
  StronglySorted R1 l → StronglySorted R2 (f <$> l).
Proof.
  intros HR Hl. induction Hl as [|x l Hl IH Hx]; [constructor|].
  rewrite fmap_cons. constructor.
  - apply IH. intros y z Hy Hz. apply HR; by right.
  - rewrite Forall_fmap. rewrite Forall_forall in Hx |- *. intros y Hy. cbn.
    apply HR; [by left|by right|by apply Hx].
Qed.

Lemma sorted_filter (R : relation A) (P : A → Prop) `{!∀ x, Decision (P x)} (l : list A) :
  StronglySorted R l → StronglySorted R (filter P l).
Proof.
  induction 1 as [|x l Hl IH Hx]; [constructor|].
  rewrite filter_cons. case_decide; [|done]. constructor; [done|].
  rewrite Forall_forall in Hx |- *. intros y [_ Hy]%list_elem_of_filter. by apply Hx.
Qed.

Lemma filter_none (P : A → Prop) `{!∀ x, Decision (P x)} (l : list A) :
  Forall (λ x, ¬ P x) l → filter P l = [].
Proof.
  induction 1 as [|x l Hx _ IH]; [done|]. by rewrite filter_cons, decide_False.
Qed.

Lemma sorted_imap (R : relation B) (g : nat → A → B) (l : list A) :
  (∀ i j x y, i < j → R (g i x) (g j y)) → StronglySorted R (imap g l).
Proof.
  revert g. induction l as [|x l IH]; intros g Hg; [constructor|].
  rewrite imap_cons. constructor.
  - apply IH. intros i j y z Hij. cbn. apply Hg. lia.
  - apply Forall_lookup. intros i y Hi. rewrite list_lookup_imap in Hi.
    destruct (l !! i); [|done]. injection Hi as <-. apply Hg. lia.
Qed.

End ListFacts.

(** ** The store *)

Section OrderFacts.
Import KnowledgeBase.
Context {A : Type} (key : A → Z * Z).
Implicit Types (x : A) (l : list A).

Lemma key_lt_false (a b : Z * Z) : key_lt b a = false ↔ key_le a b.
Proof. unfold key_lt, key_le. destruct a, b; cbn. lia. Qed.

Lemma key_lt_true (a b : Z * Z) : key_lt a b = true → key_le a b.
Proof. unfold key_lt, key_le. destruct a, b; cbn. lia. Qed.

Lemma key_le_trans (a b c : Z * Z) : key_le a b → key_le b c → key_le a c.
Proof. unfold key_le. destruct a, b, c; cbn. lia. Qed.

Lemma insert_by_perm x l : insert_by key x l ≡ₚ x :: l.
Proof.
  induction l as [|y l IH]; cbn [insert_by]; [done|].
  case_match; [|done]. rewrite IH. apply Permutation_swap.
Qed.

Lemma order_by_perm l : order_by key l ≡ₚ l.
Proof.
  induction l as [|x l IH]; cbn; [done|].
  by rewrite insert_by_perm, IH.
Qed.

Lemma insert_by_sorted x l :
  StronglySorted (λ a b, key_le (key a) (key b)) l →
  StronglySorted (λ a b, key_le (key a) (key b)) (insert_by key x l).
Proof.
  induction 1 as [|y l Hl IH Hy]; cbn [insert_by].
  - by repeat constructor.
  - destruct (key_lt (key y) (key x)) eqn:Hlt.
    + apply key_lt_true in Hlt. constructor; [done|].
      rewrite insert_by_perm. by constructor.
    + apply key_lt_false in Hlt. constructor; [by constructor|].
      constructor; [done|].
      eapply Forall_impl; [exact Hy|]. cbn. intros z Hz. by eapply key_le_trans.
Qed.

Lemma order_by_sorted l : StronglySorted (λ a b, key_le (key a) (key b)) (order_by key l).
Proof.
  induction l as [|x l IH]; cbn; [constructor|]. by apply insert_by_sorted.
Qed.

(** A row whose key is below every key of the list goes to the front. *)
Lemma insert_by_front x l :
  Forall (λ y, key_le (key x) (key y)) l → insert_by key x l = x :: l.
Proof.
  destruct l as [|y l]; [done|]. intros [Hy _]%Forall_cons. cbn [insert_by].
  by apply key_lt_false in Hy as ->.
Qed.

(** Rows that are in order already stay as they are. *)
Lemma order_by_sorted_id l :
  StronglySorted (λ a b, key_le (key a) (key b)) l → order_by key l = l.
Proof.
  induction 1 as [|x l Hl IH Hx]; [done|].
  change (order_by key (x :: l)) with (insert_by key x (order_by key l)).
  rewrite IH. by apply insert_by_front.
Qed.

Lemma insert_by_app x l k :
  Forall (λ y, key_le (key x) (key y)) k →
  insert_by key x (l ++ k) = insert_by key x l ++ k.
Proof.
  intros Hk. induction l as [|y l IH]; [by apply insert_by_front|].
  cbn [insert_by app]. destruct (key_lt (key y) (key x)); [|done]. by rewrite IH.
Qed.

(** Rows that are in order and not before any row of [l] stay behind the
    rows of [l]. *)
Lemma order_by_app l k :
  (∀ x y, x ∈ l → y ∈ k → key_le (key x) (key y)) →
  StronglySorted (λ a b, key_le (key a) (key b)) k →
  order_by key (l ++ k) = order_by key l ++ k.
Proof.
  intros Hlk Hk. induction l as [|x l IH]; [by apply order_by_sorted_id|].
  change (order_by key ((x :: l) ++ k)) with (insert_by key x (order_by key (l ++ k))).
  change (order_by key (x :: l)) with (insert_by key x (order_by key l)).
  rewrite IH by (intros ????; apply Hlk; [by right|done]).
  apply insert_by_app, Forall_forall. intros y Hy. apply Hlk; [by left|done].
Qed.

End OrderFacts.

Section StoreFacts.
Import KnowledgeBase.
Context {M : Type}.
Variable meta_truth : M → bool.
Variable meta_dumps : M → string.
Variable meta_loads : string → M.
Variable meta_empty : M.

Lemma keys_fresh_snoc (keys : list Z) (seq : Z) :
  keys_fresh keys seq → keys_fresh (keys ++ [(seq + 1)%Z]) (seq + 1).
Proof.
  intros (Hnodup & Hle & Hseq). split_and!.
  - apply NoDup_app. split_and!; [done| |apply NoDup_singleton].
    intros k Hk ->%list_elem_of_singleton.
    rewrite Forall_forall in Hle. specialize (Hle _ Hk). lia.
  - apply Forall_app. split.
    + eapply Forall_impl; [exact Hle|]. cbn. lia.
    + apply Forall_singleton. lia.
  - lia.
Qed.

Lemma keys_fresh_nil (seq : Z) : (0 ≤ seq)%Z → keys_fresh [] seq.
Proof. intros ?. split_and!; [apply NoDup_nil_2|constructor|done]. Qed.

Lemma mark_keeps_ids (d : db) (file_id : Z) :
  f_id <$> files (mark_file_processed d file_id) = f_id <$> files d.
Proof.
  cbn. rewrite <-list_fmap_compose. apply list_fmap_ext. intros i f _. cbn.
  by case_bool_decide.
Qed.

Lemma add_chunk_consistent (d : db) (file_id chunk_index : Z)
    (content content_type : string) (metadata : option M) :
  consistent d →
  consistent (add_chunk meta_truth meta_dumps d file_id chunk_index content content_type
                metadata).
Proof.
  intros (Hf & Hc & Hq). split_and!; [done| |done].
  cbn. rewrite fmap_app. by apply keys_fresh_snoc.
Qed.

Lemma add_file_consistent (d : db) (filename file_type : string)
    (file_path : option string) (file_size : Z) :
  consistent d → consistent (add_file d filename file_type file_path file_size).1.
Proof.
  intros (Hf & Hc & Hq). split_and!; [|done|done].
  cbn. rewrite fmap_app. by apply keys_fresh_snoc.
Qed.

Lemma mark_consistent (d : db) (file_id : Z) :
  consistent d → consistent (mark_file_processed d file_id).
Proof.
  intros (Hf & Hc & Hq). split_and!; [|done|done]. by rewrite mark_keeps_ids.
Qed.

(** X12.  Every operation keeps the store consistent: in each table the
    keys are distinct, positive and not above the counter of the table.
    [clear_all_data] and [delete_query_history] empty tables and keep the
    counters. *)
Theorem store_stays_consistent (d : db) :
  consistent d →
  (∀ filename file_type file_path file_size,
     consistent (add_file d filename file_type file_path file_size).1)
  ∧ (∀ file_id, consistent (mark_file_processed d file_id))
  ∧ (∀ file_id chunk_index content content_type metadata,
       consistent (add_chunk meta_truth meta_dumps d file_id chunk_index content
                     content_type metadata))
  ∧ (∀ query_text response_text, consistent (save_query d query_text response_text))
  ∧ consistent (clear_all_data d)
  ∧ consistent (delete_query_history d).
Proof.
  intros Hd. pose proof Hd as (Hf & Hc & Hq). split_and!.
  - intros. by apply add_file_consistent.
  - intros. by apply mark_consistent.
  - intros. by apply add_chunk_consistent.
  - intros. split_and!; [done|done|]. cbn. rewrite fmap_app. by apply keys_fresh_snoc.
  - destruct Hf as (_ & _ & ?), Hc as (_ & _ & ?), Hq as (_ & _ & ?).
    by split_and!; apply keys_fresh_nil.
  - destruct Hq as (_ & _ & ?). split_and!; [done|done|by apply keys_fresh_nil].
Qed.

(** X13.  [add_file] returns a key that no file of the store has and that
    is above all of them, and appends the file as not yet processed; the
    key is not one that was used before [clear_all_data] either. *)
Theorem add_file_returns_fresh_id (d : db) (filename file_type : string)
    (file_path : option string) (file_size : Z) :
  consistent d →
  let '(d', file_id) := add_file d filename file_type file_path file_size in
  Forall (λ f, (f_id f < file_id)%Z) (files d)
  ∧ files d' = files d ++ [ {| f_id := file_id; f_filename := filename;
                               f_file_type := file_type; f_file_path := file_path;
                               f_file_size := file_size; f_processed := false |} ]
  ∧ chunks d' = chunks d
  ∧ (add_file (clear_all_data d) filename file_type file_path file_size).2 = file_id.
Proof.
  intros ((_ & Hle & _) & _). cbn. split_and!; try done.
  rewrite Forall_fmap in Hle. eapply Forall_impl; [exact Hle|]. cbn. lia.
Qed.

(** The rows of the join: a chunk with the file it names. *)
Lemma elem_of_joined (d : db) (c : chunk_row) (f : file_row) :
  (c, f) ∈ joined d ↔ c ∈ chunks d ∧ f ∈ files d ∧ f_id f = c_file_id c.
Proof.
  unfold joined. rewrite list_elem_of_bind. split.
  - intros (c' & (f' & [= -> ->]%list_elem_of_singleton & Hf)%list_elem_of_bind & Hc).
    by apply list_elem_of_filter in Hf as [? ?].
  - intros (Hc & Hf & Hid). exists c. split; [|done].
    apply list_elem_of_bind. exists f. split; [by apply list_elem_of_singleton|].
    by apply list_elem_of_filter.
Qed.

Lemma joined_key (d : db) (row : chunk_row * file_row) :
  row ∈ joined d → f_id row.2 = c_file_id row.1.
Proof. destruct row as [c f]. by intros (_ & _ & ?)%elem_of_joined. Qed.

(** A key names at most one file. *)
Lemma length_filter_key (fs : list file_row) (k : Z) :
  NoDup (f_id <$> fs) →
  length (filter (λ f, f_id f = k) fs) = if decide (k ∈ f_id <$> fs) then 1 else 0.
Proof.
  induction fs as [|f fs IH]; [done|].
  rewrite fmap_cons. intros [Hf Hfs]%NoDup_cons. rewrite filter_cons.
  destruct (decide (f_id f = k)) as [Hk|Hk]; cbn [length]; rewrite IH by done.
  - subst k. rewrite decide_False by done. by rewrite decide_True by left.
  - destruct (decide (k ∈ f_id <$> fs)) as [Hin|Hin].
    + rewrite decide_True; [done|by right].
    + rewrite decide_False; [done|]. by intros [->|?]%elem_of_cons.
Qed.

Lemma length_joined (d : db) :
  NoDup (f_id <$> files d) →
  length (joined d) = length (filter (λ c, c_file_id c ∈ f_id <$> files d) (chunks d)).
Proof.
  intros Hnodup. unfold joined. induction (chunks d) as [|c cs IH]; [done|].
  rewrite bind_cons, length_app, IH, filter_cons.
  assert (length (f ← filter (λ f, f_id f = c_file_id c) (files d); [(c, f)])
          = length (filter (λ f, f_id f = c_file_id c) (files d))) as ->.
  { induction (filter _ (files d)) as [|f fs IHf]; [done|]. cbn. by rewrite <-IHf. }
  rewrite length_filter_key by done. by case_decide.
Qed.

Lemma all_rows_sorted (rows : list (chunk_row * file_row)) (d : db) :
  rows ⊆ joined d →
  StronglySorted by_file_and_index
    (chunk_dict_of meta_loads meta_empty
       <$> order_by (λ row, (f_id row.2, c_chunk_index row.1)) rows).
Proof.
  intros Hsub.
  eapply sorted_fmap_on; [|apply order_by_sorted].
  intros x y Hx Hy. rewrite order_by_perm in Hx, Hy.
  unfold by_file_and_index. cbn.
  by rewrite <-(joined_key d x), <-(joined_key d y) by by apply Hsub.
Qed.

Lemma elem_of_all_rows (d : db) (r : chunk_dict) :
  r ∈ get_all_chunks meta_loads meta_empty d None ↔
  ∃ c f, c ∈ chunks d ∧ f ∈ files d ∧ f_id f = c_file_id c
         ∧ r = chunk_dict_of meta_loads meta_empty (c, f).
Proof.
  unfold get_all_chunks. rewrite list_elem_of_fmap. setoid_rewrite order_by_perm. split.
  - intros ([c f] & -> & Hrow). apply elem_of_joined in Hrow as (? & ? & ?).
    by exists c, f.
  - intros (c & f & Hc & Hf & Hid & ->). exists (c, f). split; [done|].
    by apply elem_of_joined.
Qed.

(** X14.  [get_all_chunks()] returns the chunks whose file exists, each
    with the name and the type of its file, ordered by file and then by
    chunk index; a chunk of a file that is not in the store is left out,
    so the rows are as many as the chunks that name a file of the store. *)
Theorem get_all_chunks_joins_in_order (d : db) :
  let rows := get_all_chunks meta_loads meta_empty d None in
  StronglySorted by_file_and_index rows
  ∧ (∀ r, r ∈ rows ↔
          ∃ c f, c ∈ chunks d ∧ f ∈ files d ∧ f_id f = c_file_id c
                 ∧ r = chunk_dict_of meta_loads meta_empty (c, f))
  ∧ (NoDup (f_id <$> files d) →
     length rows = length (filter (λ c, c_file_id c ∈ f_id <$> files d) (chunks d))).
Proof.
  cbn zeta. unfold get_all_chunks. split_and!.
  - by apply (all_rows_sorted _ d).
  - apply elem_of_all_rows.
  - intros Hnodup. by rewrite length_fmap, order_by_perm, length_joined.
Qed.

(** X15.  The filter of [get_all_chunks(content_type)]: an empty type is
    no filter; any other type keeps the rows of that type, in order. *)
Theorem get_all_chunks_by_type (d : db) (t : string) :
  get_all_chunks meta_loads meta_empty d (Some "") = get_all_chunks meta_loads meta_empty d None
  ∧ (t ≠ "" →
     get_all_chunks meta_loads meta_empty d (Some t)
       ≡ₚ filter (λ r, d_content_type r = t) (get_all_chunks meta_loads meta_empty d None)
     ∧ StronglySorted by_file_and_index (get_all_chunks meta_loads meta_empty d (Some t))).
Proof.
  split; [done|]. intros Ht. unfold get_all_chunks.
  apply String.eqb_neq in Ht as ->. cbn [negb]. split.
  - rewrite filter_fmap, !order_by_perm. done.
  - apply (all_rows_sorted _ d). intros row. by intros [_ ?]%list_elem_of_filter.
Qed.

(** X16.  In a consistent store [get_file_chunks(file_id)] returns, for a
    file of the store, the rows that [get_all_chunks()] has for that file,
    ordered by chunk index.  For a key that is not a file of the store it
    still returns the chunks that name the key, and [get_all_chunks()] has
    none of them. *)
Theorem file_chunks_among_all_chunks (d : db) (file_id : Z) :
  consistent d →
  let of_file := filter (λ r, d_file_id r = file_id)
                   (get_all_chunks meta_loads meta_empty d None) in
  StronglySorted by_index (get_file_chunks meta_loads meta_empty d file_id)
  ∧ length (get_file_chunks meta_loads meta_empty d file_id)
    = length (filter (λ c, c_file_id c = file_id) (chunks d))
  ∧ if decide (file_id ∈ f_id <$> files d)
    then file_chunk_of <$> of_file ≡ₚ get_file_chunks meta_loads meta_empty d file_id
    else of_file = [].
Proof.
  intros ((Hnodup & _) & _). cbn zeta. split_and!.
  - unfold get_file_chunks. eapply sorted_fmap_on; [|apply order_by_sorted].
    intros x y _ _. unfold by_index, key_le. cbn. lia.
  - unfold get_file_chunks. by rewrite length_fmap, order_by_perm.
  - case_decide as Hin.
    + unfold get_all_chunks, get_file_chunks.
      rewrite filter_fmap, !order_by_perm, <-list_fmap_compose. unfold joined.
      induction (chunks d) as [|c cs IH]; [done|].
      rewrite bind_cons, filter_app, fmap_app, IH, (filter_cons _ c). clear IH.
      pose proof (length_filter_key (files d) (c_file_id c) Hnodup) as Hlen.
      destruct (decide (c_file_id c = file_id)) as [Hc|Hc].
      * subst file_id. rewrite decide_True in Hlen by done.
        destruct (filter _ (files d)) as [|f [|??]] eqn:Hf; try done.
        cbn [mbind list_bind app]. by rewrite filter_cons, decide_True.
      * assert (filter (λ x, d_file_id (chunk_dict_of meta_loads meta_empty x) = file_id)
                  (f ← filter (λ f, f_id f = c_file_id c) (files d); [(c, f)]) = [])
          as ->; [|done].
        clear Hlen. induction (filter _ (files d)) as [|f fs IHf]; [done|].
        cbn [mbind list_bind app]. rewrite filter_cons, decide_False by done. apply IHf.
    + destruct (filter _ _) as [|r rows] eqn:Hrows; [done|]. exfalso.
      assert (r ∈ r :: rows) as Hr by left. rewrite <-Hrows in Hr.
      apply list_elem_of_filter in Hr as [Hid Hr].
      apply elem_of_all_rows in Hr as (c & f & _ & Hf & Hcf & ->).
      cbn in Hid. apply Hin, list_elem_of_fmap. exists f. by rewrite Hcf.
Qed.

End StoreFacts.

(** ** The store on the sample knowledge base *)

Section StoreRuns.
Import KnowledgeBase StoreSamples.

Local Ltac consistent_store := unfold consistent, keys_fresh; split_and!; compute_done.

Lemma store_stays_consistent_witness :
  consistent library
  ∧ consistent (clear_all_data library)
  ∧ consistent (add_file (clear_all_data library) "tides.md" "text" None 0).1.
Proof.
  assert (consistent library) as Hlibrary by consistent_store.
  pose proof (store_stays_consistent meta_truth meta_dumps library Hlibrary)
    as (_ & _ & _ & _ & Hclear & _).
  split_and!; [done..|].
  apply (store_stays_consistent meta_truth meta_dumps (clear_all_data library) Hclear).
Defined.

Lemma add_file_returns_fresh_id_witness :
  consistent library
  ∧ (add_file library "tides.md" "text" None 0).2 = 3%Z
  ∧ (add_file (clear_all_data library) "tides.md" "text" None 0).2 = 3%Z.
Proof.
  assert (consistent library) as Hlibrary by consistent_store.
  pose proof (add_file_returns_fresh_id library "tides.md" "text" None 0 Hlibrary) as Hid.
  split_and!; [done|done|]. by destruct Hid as (_ & _ & _ & ->).
Defined.

Lemma file_chunks_among_all_chunks_witness :
  consistent library
  ∧ length (get_file_chunks meta_loads meta_empty library 1) = 2
  ∧ length (get_file_chunks meta_loads meta_empty library 7) = 1
  ∧ filter (λ r, d_file_id r = 7%Z) (get_all_chunks meta_loads meta_empty library None) = [].
Proof.
  assert (consistent library) as Hlibrary by consistent_store.
  split_and!; [done| | |].
  - by rewrite (proj1 (proj2 (file_chunks_among_all_chunks meta_loads meta_empty library 1
                                Hlibrary))).
  - by rewrite (proj1 (proj2 (file_chunks_among_all_chunks meta_loads meta_empty library 7
                                Hlibrary))).
  - pose proof (proj2 (proj2 (file_chunks_among_all_chunks meta_loads meta_empty library 7
                                Hlibrary))) as Hnone.
    exact Hnone.
Defined.

Lemma get_all_chunks_joins_in_order_witness :
  NoDup (f_id <$> files library)
  ∧ length (chunks library) = 4
  ∧ length (get_all_chunks meta_loads meta_empty library None) = 3.
Proof.
  assert (NoDup (f_id <$> files library)) as Hnodup by compute_done.
  split_and!; [done|done|].
  by rewrite (proj2 (proj2 (get_all_chunks_joins_in_order meta_loads meta_empty library))
                Hnodup).
Defined.

Lemma get_all_chunks_by_type_witness :
  get_all_chunks meta_loads meta_empty library (Some "image")
  ≡ₚ filter (λ r, d_content_type r = "image")
       (get_all_chunks meta_loads meta_empty library None).
Proof.
  by apply (proj2 (get_all_chunks_by_type meta_loads meta_empty library "image")).
Defined.

End StoreRuns.

(** ** The processing pipeline *)

Section ProcessorFacts.
Import Str Path FileTypes KnowledgeBase FileProcessor.
Context {M : Type}.
Variable meta_truth : M → bool.
Variable meta_dumps : M → string.
Variable meta_loads : string → M.
Variable meta_empty : M.
Variable json_dumps : gmap string pyval → string.
Variable file_size : string → Z.
Variables text_process_file image_process_file av_process_file :
  string → list (extracted (M:=M)).
Variable av_process_youtube : string → list (extracted (M:=M)).
Variable repr_dict : gmap string pyval → string.

Local Abbreviation stored_row := (stored_row meta_truth meta_dumps meta_empty).
Local Abbreviation store_chunks := (store_chunks meta_truth meta_dumps meta_empty).

Local Ltac cases_of H :=
  repeat (apply elem_of_cons in H as [H|H]); [..|by apply elem_of_nil in H].

Lemma get_file_type_cases (file_path : string) :
  get_file_type file_path ∈ ["text"; "image"; "audio"; "video"; "unknown"].
Proof.
  unfold get_file_type. repeat case_bool_decide; repeat constructor.
Qed.

(** The loop that stores the chunks, from any index on. *)
Lemma store_chunks_rows (d : db) (file_id : Z) (content_type : string)
    (to_str : pyobj → string) (idx : Z) (new_chunks : list (extracted (M:=M))) :
  store_chunks d file_id content_type to_str idx new_chunks
  = {| files := files d;
       chunks := chunks d
                 ++ imap (λ i chunk,
                            {| c_id := (chunks_seq d + 1 + Z.of_nat i)%Z;
                               c_file_id := file_id;
                               c_chunk_index := (idx + Z.of_nat i)%Z;
                               c_content := to_str (default (PStr "") (e_content chunk));
                               c_content_type := content_type;
                               c_metadata :=
                                 let metadata := default meta_empty (e_metadata chunk) in
                                 if meta_truth metadata then Some (meta_dumps metadata)
                                 else None |}) new_chunks;
       queries := queries d;
       files_seq := files_seq d;
       chunks_seq := (chunks_seq d + Z.of_nat (length new_chunks))%Z;
       queries_seq := queries_seq d |}.
Proof.
  revert d idx. induction new_chunks as [|chunk rest IH]; intros d idx.
  - cbn. rewrite app_nil_r, Z.add_0_r. by destruct d.
  - cbn [FileProcessor.store_chunks]. rewrite IH. cbn [add_chunk files chunks queries
      files_seq chunks_seq queries_seq]. rewrite imap_cons, <-app_assoc. cbn [app].
    f_equal; [|cbn [length]; lia]. do 2 f_equal.
    + f_equal; lia.
    + apply imap_ext. intros i chunk' _. cbn. f_equal; lia.
Qed.

Lemma mark_last_file (fs : list file_row) (new : file_row) :
  Forall (λ g, (f_id g < f_id new)%Z) fs →
  (λ f, if bool_decide (f_id f = f_id new)
        then {| f_id := f_id f; f_filename := f_filename f;
                f_file_type := f_file_type f; f_file_path := f_file_path f;
                f_file_size := f_file_size f; f_processed := true |}
        else f) <$> (fs ++ [new])
  = fs ++ [ {| f_id := f_id new; f_filename := f_filename new;
               f_file_type := f_file_type new; f_file_path := f_file_path new;
               f_file_size := f_file_size new; f_processed := true |} ].
Proof.
  intros Hfs. rewrite fmap_app. f_equal.
  - induction Hfs as [|g fs Hg _ IH]; [done|]. rewrite fmap_cons, IH.
    by rewrite bool_decide_eq_false_2 by lia.
  - cbn. by rewrite bool_decide_eq_true_2.
Qed.

(** A run: the file is added, its chunks are stored, the file is marked. *)
Lemma run_state (d : db) (filename file_type file_path : string) (size : Z)
    (content_type : string) (to_str : pyobj → string)
    (new_chunks : list (extracted (M:=M))) :
  consistent d →
  mark_file_processed
    (store_chunks (add_file d filename file_type (Some file_path) size).1
       (files_seq d + 1) content_type to_str 0 new_chunks)
    (files_seq d + 1)
  = with_processed_file meta_truth meta_dumps meta_empty d
      (processed_file d filename file_type file_path size) content_type to_str new_chunks.
Proof.
  intros ((_ & Hle & _) & _). rewrite store_chunks_rows.
  unfold mark_file_processed, with_processed_file, processed_file.
  cbn [add_file fst files chunks queries files_seq chunks_seq queries_seq f_id].
  f_equal.
  apply (mark_last_file (files d)
           {| f_id := files_seq d + 1; f_filename := filename; f_file_type := file_type;
              f_file_path := Some file_path; f_file_size := size;
              f_processed := false |}).
  rewrite Forall_fmap in Hle. eapply Forall_impl; [exact Hle|]. cbn. lia.
Qed.

Local Abbreviation process_file :=
  (process_file meta_truth meta_dumps meta_empty json_dumps file_size text_process_file
     image_process_file av_process_file).
Local Abbreviation process_youtube :=
  (process_youtube meta_truth meta_dumps meta_empty av_process_youtube repr_dict).
Local Abbreviation get_all_chunks := (get_all_chunks meta_loads meta_empty).

(** What a run of [process_file] is, by the type of the file. *)
Lemma process_file_cases (d : db) (file_path : string) (filename : option string) :
  consistent d →
  let name := default (basename file_path) filename in
  let file_type := get_file_type file_path in
  let file := processed_file d name file_type file_path (file_size file_path) in
  (∃ content_type new_chunks,
     (file_type, content_type, new_chunks)
       ∈ [("text", "text", text_process_file file_path);
          ("image", "image", image_process_file file_path);
          ("audio", "audio_video", av_process_file file_path);
          ("video", "audio_video", av_process_file file_path)]
     ∧ process_file d file_path filename
       = (with_processed_file meta_truth meta_dumps meta_empty d file content_type
            (content_str json_dumps) new_chunks,
          {| success := true; message := "Successfully processed " +:+ name;
             file_id := (files_seq d + 1)%Z;
             chunks_count := Some (length new_chunks) |}))
  ∨ (file_type = "unknown"
     ∧ process_file d file_path filename
       = ((add_file d name file_type (Some file_path) (file_size file_path)).1,
          {| success := false; message := "Unsupported file type: unknown";
             file_id := (files_seq d + 1)%Z; chunks_count := None |})).
Proof.
  intros Hd. cbn zeta. unfold FileProcessor.process_file.
  pose proof (get_file_type_cases file_path) as Htype.
  assert (∀ content_type new_chunks,
            mark_file_processed
              (store_chunks
                 (add_file d (default (basename file_path) filename)
                    (get_file_type file_path) (Some file_path) (file_size file_path)).1
                 (files_seq d + 1) content_type (content_str json_dumps) 0 new_chunks)
              (files_seq d + 1)
            = with_processed_file meta_truth meta_dumps meta_empty d
                (processed_file d (default (basename file_path) filename)
                   (get_file_type file_path) file_path (file_size file_path))
                content_type (content_str json_dumps) new_chunks) as Hrun
    by (intros; by apply run_state).
  cbn [add_file fst] in Hrun |- *.
  cases_of Htype; rewrite Htype in Hrun |- *; cbn [String.eqb Ascii.eqb Bool.eqb].
  - left. eexists _, _. split; [by left|]. by rewrite Hrun.
  - left. eexists _, _. split; [right; by left|]. by rewrite Hrun.
  - left. eexists _, _. split; [do 2 right; by left|].
    rewrite bool_decide_eq_true_2 by repeat constructor. by rewrite Hrun.
  - left. eexists _, _. split; [do 3 right; by left|].
    rewrite bool_decide_eq_true_2 by repeat constructor. by rewrite Hrun.
  - right. split; [done|]. rewrite bool_decide_eq_false_2; [done|].
    intros Hin. cases_of Hin; done.
Qed.

(** X17.  In a consistent store [process_file] appends one file row under
    a new key and, for a file of a known type, the chunks of the processor
    of that type, numbered 0, 1, 2, ... under the new key; it marks that
    file alone as processed and reports the number of chunks.  A file of
    unknown type is reported as a failure, and its row stays in the store,
    not processed and without chunks.  Other rows are not touched. *)
Theorem process_file_outcome (d : db) (file_path : string) (filename : option string) :
  consistent d →
  let file_type := get_file_type file_path in
  let '(d', r) := process_file d file_path filename in
  ∃ content_type new_chunks,
    (file_type, content_type, new_chunks)
      ∈ [("text", "text", text_process_file file_path);
         ("image", "image", image_process_file file_path);
         ("audio", "audio_video", av_process_file file_path);
         ("video", "audio_video", av_process_file file_path);
         ("unknown", "", [])]
    ∧ success r = negb (String.eqb file_type "unknown")
    ∧ file_id r = (files_seq d + 1)%Z
    ∧ chunks_count r = (if success r then Some (length new_chunks) else None)
    ∧ files d'
      = files d ++ [ {| f_id := file_id r;
                        f_filename := default (basename file_path) filename;
                        f_file_type := file_type; f_file_path := Some file_path;
                        f_file_size := file_size file_path;
                        f_processed := success r |} ]
    ∧ chunks d'
      = chunks d ++ imap (stored_row (file_id r) content_type (content_str json_dumps)
                            (chunks_seq d + 1)) new_chunks
    ∧ queries d' = queries d.
Proof.
  intros Hd. cbn zeta.
  destruct (process_file_cases d file_path filename Hd)
    as [(content_type & new_chunks & Hin & ->)|(Htype & ->)].
  - exists content_type, new_chunks. split.
    { cases_of Hin; rewrite Hin; repeat constructor. }
    cbn. split_and!; try done.
    cases_of Hin; by injection Hin as -> _ _.
  - exists "", []. rewrite Htype. split; [do 4 right; by left|].
    cbn. by rewrite app_nil_r.
Qed.

(** X18.  [process_youtube] does not look at the URL: in a consistent
    store it appends a file row of type [youtube] with the URL as path and
    size 0, stores the chunks it is given under the new key, numbered from
    0, marks the file as processed and reports success, for every URL. *)
Theorem process_youtube_outcome (d : db) (url : string) :
  consistent d →
  let '(d', r) := process_youtube d url in
  let new_chunks := av_process_youtube url in
  success r = true
  ∧ file_id r = (files_seq d + 1)%Z
  ∧ chunks_count r = Some (length new_chunks)
  ∧ files d'
    = files d ++ [ {| f_id := file_id r; f_filename := "YouTube: " +:+ url;
                      f_file_type := "youtube"; f_file_path := Some url;
                      f_file_size := 0; f_processed := true |} ]
  ∧ chunks d'
    = chunks d ++ imap (stored_row (file_id r) "audio_video" (str_content repr_dict)
                          (chunks_seq d + 1)) new_chunks
  ∧ queries d' = queries d.
Proof.
  intros Hd. unfold FileProcessor.process_youtube.
  pose proof (run_state d ("YouTube: " +:+ url) "youtube" url 0 "audio_video"
                (str_content repr_dict) (av_process_youtube url) Hd) as Hrun.
  cbn [add_file fst] in Hrun |- *. by rewrite Hrun.
Qed.

(** The rows of the join after a file and its chunks were appended. *)
Lemma joined_append (d d' : db) (file : file_row) (news : list chunk_row) :
  consistent d → chunks_of_known_files d →
  files d' = files d ++ [file] → chunks d' = chunks d ++ news →
  f_id file = (files_seq d + 1)%Z →
  Forall (λ c, c_file_id c = f_id file) news →
  joined d' = joined d ++ ((λ c, (c, file)) <$> news).
Proof.
  intros ((_ & Hle & _) & _) Hknown Hfiles Hchunks Hfile Hnews.
  unfold joined. rewrite Hfiles, Hchunks, bind_app. f_equal.
  - apply Forall_bind_ext. eapply Forall_impl; [exact Hknown|]. cbn. intros c Hc.
    rewrite filter_app, (filter_cons _ file), decide_False by lia.
    by rewrite filter_nil, app_nil_r.
  - clear Hchunks. induction Hnews as [|c news Hc _ IH]; [done|].
    rewrite bind_cons, fmap_cons, IH, filter_app, filter_none.
    + by rewrite (filter_cons _ file), decide_True.
    + rewrite Forall_fmap in Hle. eapply Forall_impl; [exact Hle|]. cbn. lia.
Qed.

Lemma all_rows_append (d d' : db) (file : file_row) (news : list chunk_row) :
  consistent d → chunks_of_known_files d →
  files d' = files d ++ [file] → chunks d' = chunks d ++ news →
  f_id file = (files_seq d + 1)%Z →
  Forall (λ c, c_file_id c = f_id file) news →
  StronglySorted (λ a b, (c_chunk_index a ≤ c_chunk_index b)%Z) news →
  get_all_chunks d' None
  = get_all_chunks d None ++ ((λ c, chunk_dict_of meta_loads meta_empty (c, file)) <$> news).
Proof.
  intros Hd Hknown Hfiles Hchunks Hfile Hnews Hsorted.
  unfold KnowledgeBase.get_all_chunks.
  rewrite (joined_append d d' file news) by done.
  rewrite order_by_app, fmap_app, <-list_fmap_compose; [done| |].
  - intros [c f] [c' f'] (_ & Hf & _)%elem_of_joined
      (c'' & [= -> ->] & _)%list_elem_of_fmap.
    destruct Hd as ((_ & Hle & _) & _). rewrite Forall_fmap, Forall_forall in Hle.
    specialize (Hle _ Hf). unfold key_le. cbn in *. lia.
  - eapply sorted_fmap_on; [|exact Hsorted]. intros x y _ _ Hxy. right. by cbn.
Qed.

Lemma stored_rows_of_file (file_id : Z) (content_type : string) (to_str : pyobj → string)
    (first_id : Z) (new_chunks : list (extracted (M:=M))) :
  Forall (λ c, c_file_id c = file_id)
    (imap (stored_row file_id content_type to_str first_id) new_chunks)
  ∧ StronglySorted (λ a b, (c_chunk_index a ≤ c_chunk_index b)%Z)
      (imap (stored_row file_id content_type to_str first_id) new_chunks).
Proof.
  split.
  - apply Forall_forall. by intros c (i & chunk & -> & _)%elem_of_lookup_imap.
  - apply sorted_imap. intros i j ???. cbn. lia.
Qed.

Lemma keys_fresh_stored (keys : list Z) (seq file_id : Z) (content_type : string)
    (to_str : pyobj → string) (new_chunks : list (extracted (M:=M))) :
  keys_fresh keys seq →
  keys_fresh
    (keys ++ (c_id <$> imap (stored_row file_id content_type to_str (seq + 1)) new_chunks))
    (seq + Z.of_nat (length new_chunks)).
Proof.
  intros Hkeys. induction new_chunks as [|chunk new_chunks IH] using rev_ind.
  - cbn. by rewrite app_nil_r, Z.add_0_r.
  - rewrite imap_app, fmap_app, app_assoc, length_app. cbn [imap fmap list_fmap length].
    apply keys_fresh_snoc in IH.
    replace (seq + Z.of_nat (length new_chunks + 1))%Z
      with (seq + Z.of_nat (length new_chunks) + 1)%Z by lia.
    cbn [FileProcessor.stored_row c_id].
    replace (seq + 1 + Z.of_nat (length new_chunks + 0))%Z
      with (seq + Z.of_nat (length new_chunks) + 1)%Z by lia.
    exact IH.
Qed.

Lemma with_processed_file_well_formed (d : db) (file : file_row) (content_type : string)
    (to_str : pyobj → string) (new_chunks : list (extracted (M:=M))) :
  consistent d → chunks_of_known_files d → f_id file = (files_seq d + 1)%Z →
  let d' := with_processed_file meta_truth meta_dumps meta_empty d file content_type
              to_str new_chunks in
  consistent d' ∧ chunks_of_known_files d'.
Proof.
  intros (Hf & Hc & Hq) Hknown Hfile. cbn zeta. split; [split_and!|].
  - cbn. rewrite fmap_app. cbn. rewrite Hfile. by apply keys_fresh_snoc.
  - cbn [with_processed_file chunks chunks_seq]. rewrite fmap_app.
    by apply keys_fresh_stored.
  - done.
  - unfold chunks_of_known_files. cbn [with_processed_file chunks files_seq].
    apply Forall_app. split.
    + eapply Forall_impl; [exact Hknown|]. cbn. lia.
    + eapply Forall_impl; [apply stored_rows_of_file|]. cbn. lia.
Qed.

(** X19.  [process_file] and [process_youtube] keep the store consistent
    and leave no chunk under a key that the store has not given to a
    file. *)
Theorem runs_keep_store_well_formed (d : db) :
  consistent d → chunks_of_known_files d →
  (∀ file_path filename,
     let d' := (process_file d file_path filename).1 in
     consistent d' ∧ chunks_of_known_files d')
  ∧ (∀ url,
       let d' := (process_youtube d url).1 in
       consistent d' ∧ chunks_of_known_files d').
Proof.
  intros Hd Hknown. split.
  - intros file_path filename. cbn zeta.
    destruct (process_file_cases d file_path filename Hd)
      as [(content_type & new_chunks & _ & ->)|(_ & ->)].
    + by apply with_processed_file_well_formed.
    + split; [by apply add_file_consistent|].
      unfold chunks_of_known_files in *. cbn.
      eapply Forall_impl; [exact Hknown|]. cbn. lia.
  - intros url. cbn zeta. unfold FileProcessor.process_youtube.
    pose proof (run_state d ("YouTube: " +:+ url) "youtube" url 0 "audio_video"
                  (str_content repr_dict) (av_process_youtube url) Hd) as Hrun.
    cbn [add_file fst] in Hrun |- *. rewrite Hrun.
    by apply with_processed_file_well_formed.
Qed.

(** X20.  After [process_file] or [process_youtube] on such a store,
    [get_all_chunks()] returns the rows it returned before, followed by
    the chunks of the new file in the order they were stored, each with
    the name and the type of the new file.  A file of unknown type adds no
    row. *)
Theorem all_chunks_after_run (d d' : db) (file_path url : string)
    (filename : option string) :
  consistent d → chunks_of_known_files d →
  d' = (process_file d file_path filename).1 ∨ d' = (process_youtube d url).1 →
  ∃ file,
    last (files d') = Some file
    ∧ get_all_chunks d' None
      = get_all_chunks d None
        ++ ((λ c, chunk_dict_of meta_loads meta_empty (c, file))
              <$> drop (length (chunks d)) (chunks d')).
Proof.
  intros Hd Hknown Hrun.
  assert (∀ d2 file content_type to_str new_chunks,
            f_id file = (files_seq d + 1)%Z →
            d2 = with_processed_file meta_truth meta_dumps meta_empty d file content_type
                   to_str new_chunks →
            ∃ file,
              last (files d2) = Some file
              ∧ get_all_chunks d2 None
                = get_all_chunks d None
                  ++ ((λ c, chunk_dict_of meta_loads meta_empty (c, file))
                        <$> drop (length (chunks d)) (chunks d2))) as Hwith.
  { intros d2 file content_type to_str new_chunks Hfile ->. exists file.
    cbn [with_processed_file files chunks]. rewrite last_snoc, drop_app_length.
    split; [done|].
    by eapply all_rows_append; [..|apply stored_rows_of_file|apply stored_rows_of_file]. }
  destruct Hrun as [->| ->].
  - destruct (process_file_cases d file_path filename Hd)
      as [(content_type & new_chunks & _ & ->)|(_ & ->)]; cbn [fst].
    + eapply Hwith; [|done]; done.
    + eexists. cbn [add_file fst files chunks]. rewrite last_snoc, drop_all.
      split; [done|].
      eapply all_rows_append; [done|done|done|by rewrite app_nil_r|done|constructor..].
  - unfold FileProcessor.process_youtube.
    pose proof (run_state d ("YouTube: " +:+ url) "youtube" url 0 "audio_video"
                  (str_content repr_dict) (av_process_youtube url) Hd) as Hstate.
    cbn [add_file fst] in Hstate |- *. rewrite Hstate. eapply Hwith; [|done]; done.
Qed.

End ProcessorFacts.

(** ** Reading back a stored chunk *)

Section StoreReadBack.
Import KnowledgeBase.
Context {M : Type}.
Variable meta_truth : M → bool.
Variable meta_dumps : M → string.
Variable meta_loads : string → M.
Variable meta_empty : M.

Local Abbreviation add_chunk := (add_chunk meta_truth meta_dumps).
Local Abbreviation get_file_chunks := (get_file_chunks meta_loads meta_empty).

(** X21.  A chunk that [add_chunk] stored is among the chunks that
    [get_file_chunks] returns for its file, with the index, the content
    and the type it was given and with the next key of the table; the
    other chunks of the file are as before and the chunks of other files
    are not touched.  Its metadata is the empty dictionary when none was
    given, and the given dictionary when JSON reads back what it wrote. *)
Theorem stored_chunk_reads_back (d : db) (file_id chunk_index : Z)
    (content content_type : string) (metadata : option M) :
  from_option (reads_back meta_truth meta_dumps meta_loads meta_empty) True metadata →
  let d' := add_chunk d file_id chunk_index content content_type metadata in
  get_file_chunks d' file_id
    ≡ₚ {| fc_id := chunks_seq d + 1; fc_chunk_index := chunk_index;
          fc_content := content; fc_content_type := content_type;
          fc_metadata := default meta_empty metadata |}
       :: get_file_chunks d file_id
  ∧ ∀ other, other ≠ file_id → get_file_chunks d' other = get_file_chunks d other.
Proof.
  intros Hback. cbn zeta. unfold KnowledgeBase.get_file_chunks, KnowledgeBase.add_chunk.
  cbn [chunks]. split.
  - rewrite !order_by_perm, filter_app, fmap_app, (filter_cons _ _ []), decide_True by done.
    rewrite filter_nil, list_fmap_singleton, <-Permutation_cons_append.
    cbn [c_id c_chunk_index c_content c_content_type c_metadata].
    match goal with
    | |- ?x :: _ ≡ₚ ?y :: _ => assert (x = y) as ->; [|done]
    end.
    f_equal.
    destruct metadata as [m|]; [|done]. cbn in Hback |- *. unfold reads_back in Hback.
    destruct (meta_truth m); [|done]. destruct Hback as [Hdumps Hloads].
    unfold metadata_of. by apply String.eqb_neq in Hdumps as ->.
  - intros other Hother. by rewrite filter_app, (filter_cons _ _ []), decide_False, app_nil_r.
Qed.

End StoreReadBack.

(** ** The engine: failures, limits, rows of the store, preview *)

Section EngineMore.
Import Str QueryEngine KnowledgeBase ImageQueries.
Variable json_loads : string → result (option pyobj).
Variable generate_content : string → backend_result.
Variable no_text_error : response → string.

Local Abbreviation scoring_text := (scoring_text json_loads).
Local Abbreviation chunk_score := (chunk_score json_loads).
Local Abbreviation score_chunks := (score_chunks json_loads).
Local Abbreviation _get_relevant_chunks := (_get_relevant_chunks json_loads).
Local Abbreviation query := (query json_loads generate_content).
Local Abbreviation query_with_images all_chunks :=
  (query_with_images json_loads generate_content all_chunks no_text_error).

(** The loop raises what the first chunk that cannot be scored raises. *)
Lemma score_chunks_raises (words : gset string) (chunks : list chunk)
    (acc : list (nat * chunk)) (msg : string) :
  score_chunks words chunks acc = Raise msg
  ↔ ∃ before c after,
      chunks = before ++ c :: after
      ∧ Forall (λ c, returns (scoring_text c)) before
      ∧ scoring_text c = Raise msg.
Proof.
  revert acc. induction chunks as [|c chunks IH]; intros acc.
  - split; [done|]. by intros ([|??] & ? & ? & ? & _).
  - cbn [QueryEngine.score_chunks]. unfold QueryEngine.chunk_score.
    destruct (scoring_text c) as [text|msg'] eqn:Htext; cbn [bind].
    + rewrite IH. split.
      * intros (before & c' & after & -> & Hbefore & Hc').
        exists (c :: before), c', after. split_and!; [done| |done].
        constructor; [by rewrite Htext|done].
      * intros ([|c0 before] & c' & after & Heq & Hbefore & Hc');
          injection Heq as <- ->; [congruence|].
        exists before, c', after. split_and!; [done| |done].
        by apply Forall_cons in Hbefore as [_ ?].
    + split.
      * intros [= ->]. exists [], c, chunks. by split_and!.
      * intros ([|c0 before] & c' & after & Heq & Hbefore & Hc');
          injection Heq as <- ->; [congruence|].
        apply Forall_cons in Hbefore as [Hc _]. by rewrite Htext in Hc.
Qed.

(** The two ways in which a chunk cannot be scored. *)
Lemma scoring_text_raises (c : chunk) (msg : string) :
  scoring_text c = Raise msg
  ↔ (∃ stored, default (PStr "") (content c) = PStr stored
               ∧ json_loads stored = Raise msg)
    ∨ (∃ d type_name repr truthy,
         reads_as json_loads (default (PStr "") (content c)) (PDict d)
         ∧ d !! "ocr_text" = Some (VOther type_name repr truthy)
         ∧ msg = "'" +:+ type_name +:+ "' object has no attribute 'lower'").
Proof.
  unfold QueryEngine.scoring_text.
  destruct (decoded json_loads (default (PStr "") (content c))) as [value|msg'] eqn:Hvalue;
    cbn [bind].
  - apply reads_as_decoded in Hvalue. split.
    + intros Hraise. right. destruct value as [s|d|repr]; [done| |done].
      destruct (d !! "ocr_text") as [[s|type_name repr truthy]|] eqn:Hocr; [done| |done].
      cbn [default from_option id] in Hraise. injection Hraise as <-.
      by exists d, type_name, repr, truthy.
    + intros [(stored & Hcontent & Hloads)|(d & type_name & repr & truthy & Hd & Hocr & ->)].
      * rewrite Hcontent in Hvalue. cbn in Hvalue. rewrite Hloads in Hvalue.
        by destruct Hvalue as [?|[? _]].
      * apply reads_as_decoded in Hvalue, Hd. rewrite Hd in Hvalue.
        injection Hvalue as <-. by rewrite Hocr.
  - split.
    + intros [= ->]. left. unfold decoded in Hvalue.
      destruct (default (PStr "") (content c)) as [stored|?|?]; [|done|done].
      exists stored. split; [done|].
      destruct (json_loads stored) as [?|?]; cbn [bind] in Hvalue; congruence.
    + intros [(stored & Hcontent & Hloads)|(d & type_name & repr & truthy & Hd & _)].
      * rewrite Hcontent in Hvalue. cbn in Hvalue. rewrite Hloads in Hvalue.
        by injection Hvalue as ->.
      * apply reads_as_decoded in Hd. by rewrite Hd in Hvalue.
Qed.

(** X22.  A chunk cannot be scored in two cases: [json.loads] raises on
    its content something that is not caught, or the content is read as a
    record whose [ocr_text] is not a string.  The ranker raises exactly
    when the store holds such a chunk, and it raises what the first such
    chunk raises, whatever the query and the limit.  Then [query] sends
    nothing to the backend and answers with the error message of its outer
    handler, and [query_with_images] answers with its own. *)
Theorem one_bad_chunk_fails_every_query (all_chunks : list chunk) (msg : string) :
  (∀ c, scoring_text c = Raise msg
        ↔ (∃ stored, default (PStr "") (content c) = PStr stored
                     ∧ json_loads stored = Raise msg)
          ∨ (∃ d type_name repr truthy,
               reads_as json_loads (default (PStr "") (content c)) (PDict d)
               ∧ d !! "ocr_text" = Some (VOther type_name repr truthy)
               ∧ msg = "'" +:+ type_name +:+ "' object has no attribute 'lower'"))
  ∧ (∀ user_query limit,
       _get_relevant_chunks all_chunks user_query limit = Raise msg
       ↔ ∃ before c after,
           all_chunks = before ++ c :: after
           ∧ Forall (λ c, returns (scoring_text c)) before
           ∧ scoring_text c = Raise msg)
  ∧ ((∃ user_query limit, _get_relevant_chunks all_chunks user_query limit = Raise msg) →
     ∀ user_query,
       query all_chunks user_query = {| answer := on_error msg; prompts := [] |}
       ∧ query_with_images all_chunks user_query
         = {| answer := on_image_error msg; prompts := [] |}).
Proof.
  assert (∀ user_query limit,
            _get_relevant_chunks all_chunks user_query limit = Raise msg
            ↔ ∃ before c after,
                all_chunks = before ++ c :: after
                ∧ Forall (λ c, returns (scoring_text c)) before
                ∧ scoring_text c = Raise msg) as Hiff.
  { intros user_query limit. rewrite <-(score_chunks_raises (query_words user_query) _ []).
    unfold QueryEngine._get_relevant_chunks.
    destruct (score_chunks _ _ _); cbn [bind]; split; congruence. }
  split_and!; [intros c; apply scoring_text_raises|done|].
  intros (q0 & limit0 & Hraise%Hiff) user_query.
  unfold ImageQueries.query_with_images, QueryEngine.query.
  by rewrite (proj2 (Hiff user_query 10%Z) Hraise), (proj2 (Hiff user_query 5%Z) Hraise).
Qed.

Lemma no_image_chunk_in_rows {M : Type} (rows : list (chunk_dict (M:=M))) :
  filter (λ c, is_image_chunk c) (as_chunk <$> rows) = [].
Proof.
  induction rows as [|row rows IH]; [done|].
  rewrite fmap_cons, filter_cons, IH. done.
Qed.

(** X23.  The chunks that the store returns hold their content as a
    string, so none of them counts as an image chunk in
    [query_with_images]: on the rows of the store it never takes the
    branch for images, whatever the query.  It answers as [query] does,
    except that a failure of the ranker is reported in its own words. *)
Theorem query_with_images_on_store_rows {M : Type} (rows : list (chunk_dict (M:=M)))
    (user_query : string) :
  let all_chunks := as_chunk <$> rows in
  query_with_images all_chunks user_query
  = match _get_relevant_chunks all_chunks user_query 5 with
    | Raise msg => {| answer := on_image_error msg; prompts := [] |}
    | Ok _ => query all_chunks user_query
    end.
Proof.
  cbn zeta. unfold ImageQueries.query_with_images. rewrite no_image_chunk_in_rows.
  destruct (_get_relevant_chunks (as_chunk <$> rows) user_query 5)
    as [relevant|msg] eqn:Hrank; [|done].
  destruct (relevant_chunks_have_context _ _ _ _ _ Hrank) as (context & ->).
  by rewrite bool_decide_eq_true_2.
Qed.

(** X24.  With limits that are not negative, the chunks for a smaller
    limit are the first chunks for a larger limit: the five chunks that
    the interface shows are the first five of the ten that [query] puts in
    the prompt. *)
Theorem smaller_limit_is_prefix (all_chunks relevant : list chunk) (user_query : string)
    (limit limit' : Z) :
  (0 ≤ limit ≤ limit')%Z →
  _get_relevant_chunks all_chunks user_query limit' = Ok relevant →
  _get_relevant_chunks all_chunks user_query limit = Ok (take (Z.to_nat limit) relevant).
Proof.
  intros Hlimit. unfold QueryEngine._get_relevant_chunks.
  destruct (score_chunks _ _ _) as [scored|]; cbn [bind]; [|done].
  intros [= <-]. rewrite !slice_to_take by lia.
  rewrite <-fmap_take, take_take. do 3 f_equal. lia.
Qed.

(** X25.  The text under [View Relevant Context] has at most 503
    characters; a text of at most 500 characters is shown whole.  It is
    the text that the chunk has in the prompt, unless the chunk is a
    record whose [ocr_text] is missing or counts as false.  The text is
    shown whenever the content of the chunk is read without an exception,
    as it is for the chunks that the ranker returns. *)
Theorem preview_is_bounded_context_text (c : chunk) :
  (∀ shown, preview json_loads c = Ok shown → (String.length shown ≤ 503)%nat)
  ∧ (∀ text, preview_text json_loads c = Ok text → (String.length text ≤ 500)%nat →
       preview json_loads c = Ok text)
  ∧ ((∀ d, decoded json_loads (default (PStr "") (content c)) = Ok (PDict d) →
           ∃ v, d !! "ocr_text" = Some v ∧ truth v = true) →
     preview_text json_loads c = context_text json_loads c)
  ∧ (∀ value, reads_as json_loads (default (PStr "") (content c)) value →
       ∃ shown, preview json_loads c = Ok shown).
Proof.
  split_and!.
  - intros shown. unfold preview.
    destruct (preview_text json_loads c) as [text|]; cbn [bind]; [|done].
    intros [= <-]. destruct (500 <? len _)%Z eqn:Hlen.
    + rewrite length_append.
      pose proof (length_slice_le text 0 500). cbn [String.length]. lia.
    + apply Z.ltb_ge in Hlen. unfold len in Hlen. lia.
  - intros text Htext Hshort. unfold preview. rewrite Htext. cbn [bind].
    destruct (500 <? len _)%Z eqn:Hlen; [|done].
    apply Z.ltb_lt in Hlen. unfold len in Hlen. lia.
  - intros Hrecord. unfold preview_text, context_text.
    destruct (decoded json_loads _) as [[text|d|repr]|]; cbn [bind]; [done| |done|done].
    destruct (Hrecord d eq_refl) as (v & -> & Htruth). cbn [default from_option id].
    by rewrite Htruth.
  - intros value Hvalue%reads_as_decoded. unfold preview, preview_text.
    rewrite Hvalue. cbn [bind]. by eexists.
Qed.

End EngineMore.

(** ** Runs on the samples *)

Section PipelineRuns.
Import KnowledgeBase StoreSamples.

Local Ltac consistent_store := unfold consistent, keys_fresh; split_and!; compute_done.

Lemma process_file_outcome_witness :
  consistent empty
  ∧ FileProcessor.success (process_file empty "uploads/notes.txt" None).2 = true
  ∧ FileProcessor.success (process_file empty "uploads/notes.xyz" None).2 = false.
Proof.
  assert (consistent empty) as Hempty by consistent_store.
  split_and!; [done| |].
  - pose proof (process_file_outcome meta_truth meta_dumps meta_empty json_dumps file_size
                  text_process_file image_process_file av_process_file
                  empty "uploads/notes.txt" None Hempty) as Hrun.
    fold process_file in Hrun. destruct (process_file empty "uploads/notes.txt" None).
    cbn zeta in Hrun. destruct Hrun as (content_type & new_chunks & _ & Hsuccess & _).
    cbn [snd]. rewrite Hsuccess. by vm_compute.
  - pose proof (process_file_outcome meta_truth meta_dumps meta_empty json_dumps file_size
                  text_process_file image_process_file av_process_file
                  empty "uploads/notes.xyz" None Hempty) as Hrun.
    fold process_file in Hrun. destruct (process_file empty "uploads/notes.xyz" None).
    cbn zeta in Hrun. destruct Hrun as (content_type & new_chunks & _ & Hsuccess & _).
    cbn [snd]. rewrite Hsuccess. by vm_compute.
Defined.

Lemma process_youtube_outcome_witness :
  consistent library
  ∧ FileProcessor.file_id (process_youtube library "not a link").2 = 3%Z
  ∧ FileProcessor.chunks_count (process_youtube library "not a link").2 = Some 1.
Proof.
  assert (consistent library) as Hlibrary by consistent_store.
  pose proof (process_youtube_outcome meta_truth meta_dumps meta_empty av_process_youtube
                repr_dict library "not a link" Hlibrary) as Hrun.
  fold process_youtube in Hrun. destruct (process_youtube library "not a link").
  destruct Hrun as (_ & Hid & Hcount & _). cbn [snd]. rewrite Hid, Hcount.
  split_and!; [done|by vm_compute|by vm_compute].
Defined.

Lemma runs_keep_store_well_formed_witness :
  consistent empty ∧ chunks_of_known_files empty
  ∧ consistent (process_youtube (process_file empty "uploads/notes.txt" None).1
                  "https://youtu.be/harbour").1.
Proof.
  assert (consistent empty) as Hempty by consistent_store.
  assert (chunks_of_known_files empty) as Hknown by constructor.
  split_and!; [done|done|].
  destruct (proj1 (runs_keep_store_well_formed meta_truth meta_dumps meta_empty json_dumps
                     file_size text_process_file image_process_file av_process_file
                     av_process_youtube repr_dict empty Hempty Hknown)
              "uploads/notes.txt" None) as [Hd Hk].
  apply (proj2 (runs_keep_store_well_formed meta_truth meta_dumps meta_empty json_dumps
                  file_size text_process_file image_process_file av_process_file
                  av_process_youtube repr_dict _ Hd Hk) "https://youtu.be/harbour").
Defined.

Lemma all_chunks_after_run_witness :
  consistent empty ∧ chunks_of_known_files empty
  ∧ ∃ file,
      last (files (process_file empty "uploads/notes.txt" None).1) = Some file
      ∧ get_all_chunks meta_loads meta_empty (process_file empty "uploads/notes.txt" None).1
          None
        = get_all_chunks meta_loads meta_empty empty None
          ++ ((λ c, chunk_dict_of meta_loads meta_empty (c, file))
                <$> drop (length (chunks empty))
                      (chunks (process_file empty "uploads/notes.txt" None).1)).
Proof.
  assert (consistent empty) as Hempty by consistent_store.
  assert (chunks_of_known_files empty) as Hknown by constructor.
  split_and!; [done|done|].
  apply (all_chunks_after_run meta_truth meta_dumps meta_loads meta_empty json_dumps
           file_size text_process_file image_process_file av_process_file
           av_process_youtube repr_dict empty _ "uploads/notes.txt" "" None Hempty Hknown).
  by left.
Defined.

Lemma stored_chunk_reads_back_witness :
  reads_back meta_truth meta_dumps meta_loads meta_empty (source_of "uploads/tides.md")
  ∧ get_file_chunks meta_loads meta_empty
      (add_chunk meta_truth meta_dumps library 1 2 "High tide at noon." "text"
         (Some (source_of "uploads/tides.md"))) 2
    = get_file_chunks meta_loads meta_empty library 2.
Proof.
  assert (reads_back meta_truth meta_dumps meta_loads meta_empty
            (source_of "uploads/tides.md")) as Hback by (by vm_compute).
  split; [done|].
  by apply (proj2 (stored_chunk_reads_back meta_truth meta_dumps meta_loads meta_empty
                     library 1 2 "High tide at noon." "text"
                     (Some (source_of "uploads/tides.md")) Hback)).
Defined.

End PipelineRuns.

Section EngineRuns.
Import QueryEngine Samples ImageQueries.

Lemma one_bad_chunk_fails_every_query_witness :
  _get_relevant_chunks limited_loads [geo; deep_file; notes] "" 10 = Raise recursion_error
  ∧ query limited_loads (failing forbidden) [geo; deep_file; notes] question
    = {| answer := on_error recursion_error; prompts := [] |}
  ∧ scoring_text Json.loads odd_file = Raise "'int' object has no attribute 'lower'".
Proof.
  assert (_get_relevant_chunks limited_loads [geo; deep_file; notes] "" 10
          = Raise recursion_error) as Hraise by (by vm_compute).
  split_and!; [done| |].
  - apply (proj2 (proj2 (one_bad_chunk_fails_every_query limited_loads (failing forbidden)
                           (λ _, "") [geo; deep_file; notes] recursion_error))).
    by exists "", 10%Z.
  - apply (proj1 (one_bad_chunk_fails_every_query Json.loads (failing forbidden)
                    (λ _, "") [] "'int' object has no attribute 'lower'") odd_file).
    right. exists {[ "ocr_text" := VOther "int" "1" true ]}, "int", "1", true.
    split_and!; [left; by vm_compute|by vm_compute|done].
Defined.

Lemma smaller_limit_is_prefix_witness :
  _get_relevant_chunks Json.loads store question 10 = Ok [geo; tour; notes; photo]
  ∧ _get_relevant_chunks Json.loads store question 2 = Ok [geo; tour].
Proof.
  assert (_get_relevant_chunks Json.loads store question 10 = Ok [geo; tour; notes; photo])
    as Hten by (by vm_compute).
  split; [done|].
  apply (smaller_limit_is_prefix Json.loads store [geo; tour; notes; photo] question 2 10);
    [lia|done].
Defined.

Lemma preview_is_bounded_context_text_witness :
  preview Json.loads geo = Ok "The capital of France is Paris."
  ∧ preview_text Json.loads photo = context_text Json.loads photo.
Proof.
  split.
  - apply (proj1 (proj2 (preview_is_bounded_context_text Json.loads geo)));
      [by vm_compute|vm_compute; lia].
  - apply (proj1 (proj2 (proj2 (preview_is_bounded_context_text Json.loads photo)))).
    intros d Hd. exists (VStr "Paris by night"). vm_compute in Hd.
    injection Hd as <-. by vm_compute.
Defined.

End EngineRuns.
